(** * input-otp: the OTPInput widget

    A shallow embedding of the event handlers, the completion effect and the
    slot computation of [OTPInput], and the properties of the widget's
    specification settled against them.

    Conventions.
    - JavaScript strings are [string]s, one [ascii] per code unit; [length]
      and indices are integers ([Z]), as every number the component computes
      with is one.
    - The hidden [<input>] is a record with its text and its native selection;
      [setSelectionRange] and [select] follow the HTML standard.
    - A handler is a function from the values its closure captured (the props
      and the state of the render that attached it) to the new state and the
      observable calls it made; a handler that can throw returns a [result].
    - [regexp.test] is taken as a parameter: a predicate on strings. *)

From Stdlib Require Import ZArith String Ascii List Bool Lia.
Import ListNotations.

Open Scope string_scope.
Open Scope Z_scope.

(** ** JavaScript strings *)

Module JsString.

(** [s.length] *)
Definition len (s : string) : Z := Z.of_nat (String.length s).

(** The suffix of [s] after its first [n] code units. *)
Fixpoint drop (n : nat) (s : string) : string :=
  match n, s with
  | O, _ => s
  | S _, EmptyString => EmptyString
  | S n', String _ s' => drop n' s'
  end.

(** [s.includes(pat)] *)
Fixpoint includes (s pat : string) : bool :=
  if String.prefix pat s then true
  else match s with
       | EmptyString => false
       | String _ s' => includes s' pat
       end.

(** [s.replace(pat, rep)] with a string pattern: only the first occurrence
    of [pat] is replaced.  ([rep] is the empty string at every call of the
    component, so the dollar patterns of a replacement never arise.) *)
Fixpoint replace (s pat rep : string) : string :=
  if String.prefix pat s then rep ++ drop (String.length pat) s
  else match s with
       | EmptyString => EmptyString
       | String c s' => String c (replace s' pat rep)
       end.

(** [s[i]], [None] standing for [undefined]. *)
Definition at_ (s : string) (i : Z) : option ascii :=
  if i <? 0 then None else String.get (Z.to_nat i) s.

(** Number of occurrences of the code unit [c] in [s]. *)
Fixpoint count (c : ascii) (s : string) : nat :=
  match s with
  | EmptyString => O
  | String d s' => (if Ascii.eqb d c then 1%nat else 0%nat) + count c s'
  end.

End JsString.

(** ** The text control *)

Module Dom.

Record input := mkInput {
  value : string;
  selectionStart : option Z;
  selectionEnd : option Z
}.

(** Conversion of an integer argument to [unsigned long]. *)
Definition ToUint32 (x : Z) : Z := x mod 2 ^ 32.

(** [el.setSelectionRange(start, end)]: offsets past the text point at its
    end; when [end <= start] both ends are placed at [end]. *)
Definition setSelectionRange (start end_ : Z) (el : input) : input :=
  let n := JsString.len (value el) in
  let s := Z.min (ToUint32 start) n in
  let e := Z.min (ToUint32 end_) n in
  {| value := value el;
     selectionStart := Some (Z.min s e);
     selectionEnd := Some e |}.

(** [el.select()]: the whole text. *)
Definition select (el : input) : input :=
  {| value := value el;
     selectionStart := Some 0;
     selectionEnd := Some (JsString.len (value el)) |}.

Record KeyboardEvent := mkKey {
  key : string;
  shiftKey : bool;
  metaKey : bool;
  ctrlKey : bool;
  altKey : bool
}.

End Dom.

(** ** Results of code that can throw *)

Inductive result (A : Type) : Type :=
| Ok (a : A)
| Throw (message : string).
Arguments Ok {A} a.
Arguments Throw {A} message.

Definition bind {A B : Type} (r : result A) (k : A -> result B) : result B :=
  match r with
  | Ok a => k a
  | Throw m => Throw m
  end.

Notation "x <- r ;; k" := (bind r (fun x => k))
  (at level 61, r at next level, right associativity).

(** ** The component *)

Module OTPInput.

Import JsString.

Definition GHOST_CHARACTER : string := "@".

Definition includeGhostCharacter (s : string) : string :=
  if includes s GHOST_CHARACTER then s
  else GHOST_CHARACTER ++ s.

Definition removeGhostCharacter (s : string) : string :=
  replace s GHOST_CHARACTER "".

(** The members of [SelectionType] that the component uses. *)
Inductive SelectionType := CARET | CHAR | MULTI.

Definition SelectionType_eqb (a b : SelectionType) : bool :=
  match a, b with
  | CARET, CARET | CHAR, CHAR | MULTI, MULTI => true
  | _, _ => false
  end.

(** The props the handlers read.  [pvalue] and [onChange] are the caller's
    [value] and [onChange] ([None]: not supplied; a supplied callback is
    known by an identifier); [regexp] is [None] when [pattern] is falsy and
    otherwise the [test] of the pattern. *)
Record Props := mkProps {
  pvalue : option string;
  onChange : option nat;
  maxLength : Z;
  regexp : option (string -> bool);
  allowNavigation : bool;
  onComplete : option nat;
  disabled : bool
}.

(** The component's state: [useState] cells and [inputRef]. *)
Record State := mkState {
  internalValue : string;
  isHoveringContainer : bool;
  isFocused : bool;
  mirrorSelectionStart : option Z;
  mirrorSelectionEnd : option Z;
  inputRef : option Dom.input
}.

(** [const value = uncheckedValue ?? internalValue] *)
Definition value (p : Props) (st : State) : string :=
  match pvalue p with
  | Some v => v
  | None => internalValue st
  end.

Definition set_inputRef (st : State) (el : Dom.input) : State :=
  {| internalValue := internalValue st;
     isHoveringContainer := isHoveringContainer st;
     isFocused := isFocused st;
     mirrorSelectionStart := mirrorSelectionStart st;
     mirrorSelectionEnd := mirrorSelectionEnd st;
     inputRef := Some el |}.

Definition set_mirror (st : State) (s e : option Z) : State :=
  {| internalValue := internalValue st;
     isHoveringContainer := isHoveringContainer st;
     isFocused := isFocused st;
     mirrorSelectionStart := s;
     mirrorSelectionEnd := e;
     inputRef := inputRef st |}.

Definition set_isFocused (st : State) (b : bool) : State :=
  {| internalValue := internalValue st;
     isHoveringContainer := isHoveringContainer st;
     isFocused := b;
     mirrorSelectionStart := mirrorSelectionStart st;
     mirrorSelectionEnd := mirrorSelectionEnd st;
     inputRef := inputRef st |}.

Definition set_internalValue (st : State) (v : string) : State :=
  {| internalValue := v;
     isHoveringContainer := isHoveringContainer st;
     isFocused := isFocused st;
     mirrorSelectionStart := mirrorSelectionStart st;
     mirrorSelectionEnd := mirrorSelectionEnd st;
     inputRef := inputRef st |}.

(** Calls a handler makes that are visible outside the component. *)
Inductive Call :=
| CallOnChange (cb : nat) (v : string)
| CallOnComplete (cb : nat) (v : string)
| ConsoleLog (msg : string)
| ClipboardWriteText (text : string).

(** The callbacks handed to [syncTimeouts]. *)
Inductive Task := TaskSelectListener | TaskSyncMirror.

(** What a handler did: the new state, whether it called
    [e.preventDefault()], its calls, and the callbacks it deferred. *)
Record Outcome := mkOutcome {
  state : State;
  defaultPrevented : bool;
  calls : list Call;
  deferred : list Task
}.

Definition unchanged (st : State) : Outcome :=
  {| state := st; defaultPrevented := false; calls := []; deferred := [] |}.

(** *** The completion effect *)

(** What [usePrevious] and the completion [useEffect] keep between renders:
    the ref of [usePrevious] and the dependencies of the last render. *)
Record Hooks := mkHooks {
  previousRef : option string;
  completionDeps : option (Z * option nat * string)
}.

Definition mount : Hooks :=
  {| previousRef := None; completionDeps := None |}.

(** One render's inputs to the effects. *)
Record RenderInput := mkRender {
  r_maxLength : Z;
  r_onComplete : option nat;
  r_value : string
}.

Definition deps_eqb (a b : Z * option nat * string) : bool :=
  let '(m1, c1, v1) := a in
  let '(m2, c2, v2) := b in
  (m1 =? m2)
  && match c1, c2 with
     | Some x, Some y => Nat.eqb x y
     | None, None => true
     | _, _ => false
     end
  && String.eqb v1 v2.

(** The body of the completion effect, with [previousValue] as the render
    read it from [usePrevious]. *)
Definition completionEffect (previousValue : option string) (r : RenderInput)
  : list Call :=
  match previousValue with
  | None => []
  | Some previousValue =>
      if negb (String.eqb (r_value r) previousValue)
         && (len previousValue <? r_maxLength r)
         && (len (r_value r) =? r_maxLength r)
      then ConsoleLog "calling oncomplete"
           :: match r_onComplete r with
              | Some cb => [CallOnComplete cb (r_value r)]
              | None => []
              end
      else []
  end.

(** A render followed by its effects: [usePrevious] returns the ref's
    content, then its own effect stores the rendered value; the completion
    effect runs when one of [maxLength, onComplete, value] changed. *)
Definition render (h : Hooks) (r : RenderInput) : Hooks * list Call :=
  let previousValue := previousRef h in
  let deps := (r_maxLength r, r_onComplete r, r_value r) in
  let runs := match completionDeps h with
              | None => true
              | Some old => negb (deps_eqb old deps)
              end in
  ({| previousRef := Some (r_value r); completionDeps := Some deps |},
   if runs then completionEffect previousValue r else []).

(** The renders of a component's life, from its mount on. *)
Fixpoint renders (h : Hooks) (rs : list RenderInput) : Hooks * list Call :=
  match rs with
  | [] => (h, [])
  | r :: rs' =>
      let '(h1, c1) := render h r in
      let '(h2, c2) := renders h1 rs' in
      (h2, (c1 ++ c2)%list)
  end.

(** *** Event handlers *)

Definition fixSelection (selection : option Z) : option Z :=
  match selection with
  | None => None
  | Some selection =>
      if selection >? 1 then Some (selection - 1)
      else Some (selection - 1)
  end.

(** The callback [_selectListener] hands to [syncTimeouts]. *)
Definition syncMirror (st : State) : result State :=
  match inputRef st with
  | None => Throw "TypeError: inputRef.current is null"
  | Some el =>
      Ok (set_mirror st (fixSelection (Dom.selectionStart el))
                        (fixSelection (Dom.selectionEnd el)))
  end.

Definition _selectListener (p : Props) (st : State) : Outcome :=
  match inputRef st with
  | None => unchanged st
  | Some el =>
      let value := value p st in
      let el' :=
        match Dom.selectionStart el, Dom.selectionEnd el with
        | Some _start, Some _end =>
            if negb (len value =? 0) then
              let isSingleCaret := _start =? _end in
              let isInsertMode :=
                (_start =? len value) && (len value <? maxLength p) in
              if isSingleCaret && negb isInsertMode then
                let caretPos := _start in
                let '(start, end_) :=
                  if caretPos =? 0 then (0, 1)
                  else if caretPos =? len value
                       then (len value - 1, len value)
                       else (caretPos, caretPos + 1) in
                if negb (start =? -1) && negb (end_ =? -1)
                then Dom.setSelectionRange start end_ el
                else el
              else el
            else el
        | _, _ => el
        end in
      {| state := set_inputRef st el';
         defaultPrevented := false;
         calls := [];
         deferred := [TaskSyncMirror] |}
  end.

(** [onChange(v)]: the caller's handler, or [setInternalValue]. *)
Definition do_onChange (p : Props) (st : State) (v : string)
  : State * list Call :=
  match onChange p with
  | Some cb => (st, [CallOnChange cb v])
  | None => (set_internalValue st v, [])
  end.

(** [text] is [e.currentTarget.value], the text of the edited input. *)
Definition sanitize (text : string) : string :=
  let withoutSpaces := replace text " " "" in
  removeGhostCharacter withoutSpaces.

Definition _changeListener (p : Props) (st : State) (text : string)
  : Outcome :=
  let withoutGhostCharacter := sanitize text in
  if (len withoutGhostCharacter >? 0)
     && match regexp p with
        | Some test => negb (test withoutGhostCharacter)
        | None => false
        end
  then {| state := st; defaultPrevented := true;
          calls := []; deferred := [] |}
  else
    let '(st', cs) := do_onChange p st withoutGhostCharacter in
    {| state := st'; defaultPrevented := false;
       calls := cs; deferred := [] |}.

Definition classify (s0 s1 : Z) : result SelectionType :=
  if s0 =? s1 then Ok CARET
  else if s1 - s0 =? 1 then Ok CHAR
  else if s1 - s0 >? 1 then Ok MULTI
  else Throw "Could not determine OTPInput selection type".

Definition isNavigationKey (k : string) : bool :=
  String.eqb k "ArrowLeft" || String.eqb k "ArrowRight"
  || String.eqb k "ArrowUp" || String.eqb k "ArrowDown"
  || String.eqb k "Home" || String.eqb k "End".

Definition _keyDownListener (p : Props) (st : State) (e : Dom.KeyboardEvent)
  : result Outcome :=
  match inputRef st with
  | None => Ok (unchanged st)
  | Some el =>
      match Dom.selectionStart el, Dom.selectionEnd el with
      | Some s0, Some s1 =>
          selectionType <- classify s0 s1 ;;
          let value := value p st in
          if isNavigationKey (Dom.key e) then
            if negb (allowNavigation p) then
              Ok {| state := st; defaultPrevented := true;
                    calls := []; deferred := [] |}
            else
              let plainLeft :=
                String.eqb (Dom.key e) "ArrowLeft"
                && SelectionType_eqb selectionType CHAR
                && negb (Dom.shiftKey e) && negb (Dom.metaKey e)
                && negb (Dom.ctrlKey e) && negb (Dom.altKey e) in
              let el1 :=
                if plainLeft
                then Dom.setSelectionRange (Z.max (s0 - 1) 0)
                                           (Z.max (s1 - 1) 1) el
                else el in
              let altJump :=
                Dom.altKey e && negb (Dom.shiftKey e)
                && (String.eqb (Dom.key e) "ArrowLeft"
                    || String.eqb (Dom.key e) "ArrowRight") in
              let el2 :=
                if altJump then
                  let a :=
                    if String.eqb (Dom.key e) "ArrowLeft"
                    then Dom.setSelectionRange 0 (Z.min 1 (len value)) el1
                    else el1 in
                  if String.eqb (Dom.key e) "ArrowRight"
                  then Dom.setSelectionRange (Z.max 0 (len value - 1))
                                             (len value) a
                  else a
                else el1 in
              Ok {| state := set_inputRef st el2;
                    defaultPrevented := plainLeft || altJump;
                    calls := []; deferred := [] |}
          else Ok (unchanged st)
      | _, _ => Ok (unchanged st)
      end
  end.

(** The [onKeyDown] of the input (the caller's own [onKeyDown], called
    last, is outside the component). *)
Definition onKeyDown (p : Props) (st : State) (e : Dom.KeyboardEvent)
  : result Outcome :=
  o <- _keyDownListener p st e ;;
  Ok {| state := state o;
        defaultPrevented := defaultPrevented o;
        calls := calls o;
        deferred := (deferred o ++ [TaskSelectListener])%list |}.

(** The [onCopy] of the input; [clipboard] is ['clipboard' in navigator]. *)
Definition onCopy (p : Props) (st : State) (clipboard : bool) : Outcome :=
  if clipboard
  then {| state := st; defaultPrevented := true;
          calls := [ClipboardWriteText (removeGhostCharacter (value p st))];
          deferred := [] |}
  else unchanged st.

(** The [onFocus] of the input. *)
Definition onFocus (p : Props) (st : State) : Outcome :=
  let st1 :=
    match inputRef st with
    | Some el =>
        let start := Z.min (len (Dom.value el) - 1) (maxLength p - 1) in
        let end_ := len (Dom.value el) in
        set_mirror (set_inputRef st (Dom.setSelectionRange start end_ el))
                   (Some start) (Some end_)
    | None => st
    end in
  unchanged (set_isFocused st1 true).

(** The [select] that [useImperativeHandle] installs on the element. *)
Definition select (p : Props) (st : State) : result State :=
  match inputRef st with
  | None => Throw "TypeError: inputRef.current is null"
  | Some el =>
      if negb (allowNavigation p) then Ok st
      else
        let el' := Dom.select el in
        Ok (set_mirror (set_inputRef st el')
                       (Some 0) (Some (len (Dom.value el'))))
  end.

(** *** Deferred callbacks *)

(** Modelled from the spec: [syncTimeouts] (its module, sync-timeouts, is
    not among the sources).  The callbacks it is given are deferred and run
    after the handler that deferred them has returned and the native
    selection update is committed; a callback deferred by a deferred
    callback runs after those already waiting. *)
Definition runTask (p : Props) (t : Task) (st : State)
  : result (State * list Task) :=
  match t with
  | TaskSelectListener =>
      let o := _selectListener p st in Ok (state o, deferred o)
  | TaskSyncMirror =>
      st' <- syncMirror st ;; Ok (st', [])
  end.

Fixpoint settle (fuel : nat) (p : Props) (queue : list Task) (st : State)
  : result State :=
  match queue with
  | [] => Ok st
  | t :: queue' =>
      match fuel with
      | O => Throw "out of fuel"
      | S fuel' =>
          r <- runTask p t st ;;
          settle fuel' p (queue' ++ snd r)%list (fst r)
      end
  end.

(** *** Slots *)

Record Slot := mkSlot {
  char : option ascii;
  isActive : bool;
  hasFakeCaret : bool
}.

Definition slot (p : Props) (st : State) (slotIdx : Z) : Slot :=
  let isActive :=
    isFocused st
    && match mirrorSelectionStart st, mirrorSelectionEnd st with
       | Some ms, Some me =>
           ((ms =? me) && (slotIdx =? ms))
           || ((slotIdx >=? ms) && (slotIdx <? me))
       | _, _ => false
       end in
  let char := at_ (value p st) slotIdx in
  {| char := char;
     isActive := isActive;
     hasFakeCaret := isActive && match char with
                                 | None => true
                                 | Some _ => false
                                 end |}.

(** [Array.from({ length: maxLength }).map(...)]: the array has
    [maxLength] entries, none when [maxLength] is negative. *)
Definition slots (p : Props) (st : State) : list Slot :=
  map (fun i => slot p st (Z.of_nat i)) (seq 0 (Z.to_nat (maxLength p))).

(** The indices of the active slots. *)
Definition activeSlots (p : Props) (st : State) : list nat :=
  filter (fun i => isActive (slot p st (Z.of_nat i)))
         (seq 0 (Z.to_nat (maxLength p))).

(** *** Vocabulary of the specification *)

(** A value update is a transition into the full state when the value
    changed, the previous one was shorter than [maxLength] and the new one
    has [maxLength] characters. *)
Definition entersFull (previous : string) (r : RenderInput) : Prop :=
  r_value r <> previous
  /\ len previous < r_maxLength r
  /\ len (r_value r) = r_maxLength r.

Definition entersFullb (previous : string) (r : RenderInput) : bool :=
  negb (String.eqb (r_value r) previous)
  && (len previous <? r_maxLength r)
  && (len (r_value r) =? r_maxLength r).

(** The values at which a run of updates, starting from [previous], enters
    the full state, in order. *)
Fixpoint fullTransitions (previous : string) (rs : list RenderInput)
  : list string :=
  match rs with
  | [] => []
  | r :: rs' =>
      (if entersFullb previous r then [r_value r] else [])
      ++ fullTransitions (r_value r) rs'
  end%list.

(** The arguments of the calls of the completion callback, in order. *)
Fixpoint completions (cs : list Call) : list string :=
  match cs with
  | [] => []
  | CallOnComplete _ v :: cs' => v :: completions cs'
  | _ :: cs' => completions cs'
  end.

(** The text fails, or satisfies, the configured pattern; without a pattern
    no text fails. *)
Definition failsPattern (p : Props) (s : string) : Prop :=
  exists test, regexp p = Some test /\ test s = false.

Definition satisfiesPattern (p : Props) (s : string) : Prop :=
  forall test, regexp p = Some test -> test s = true.

(** [s] with every occurrence of the code unit [c] removed. *)
Fixpoint withoutAll (c : ascii) (s : string) : string :=
  match s with
  | EmptyString => EmptyString
  | String d s' =>
      if Ascii.eqb d c then withoutAll c s' else String d (withoutAll c s')
  end.

Definition space : ascii := " "%char.
Definition ghost : ascii := "@"%char.

(** The element shows the value of the render: [value={includeGhostCharacter(value)}]. *)
Definition shows (p : Props) (st : State) (el : Dom.input) : Prop :=
  inputRef st = Some el
  /\ Dom.value el = includeGhostCharacter (value p st).

(** An endpoint shifted left by one; a null endpoint stays null. *)
Definition shiftLeft (selection : option Z) : option Z :=
  option_map (fun n => n - 1) selection.

(** The three recognized shapes of a selection. *)
Definition shape (s0 s1 : Z) (t : SelectionType) : Prop :=
  match t with
  | CARET => s0 = s1
  | CHAR => s1 - s0 = 1
  | MULTI => s1 - s0 > 1
  end.

(** *** A scenario *)

(** The input after a focus on the value [12] with six slots. *)
Definition focused12 : State :=
  mkState "" false true (Some 2) (Some 3)
          (Some (Dom.mkInput "@12" (Some 2) (Some 3))).

Definition props12 : Props :=
  mkProps (Some "12") (Some 0%nat) 6 None true None false.

Definition props12_noNavigation : Props :=
  mkProps (Some "12") (Some 0%nat) 6 None false None false.

(** The value [12] fills an input of two slots; the input before a focus. *)
Definition props12_full : Props :=
  mkProps (Some "12") (Some 0%nat) 2 None true None false.

Definition blurred12 : State :=
  mkState "" false false None None
          (Some (Dom.mkInput "@12" (Some 3) (Some 3))).

(** A value with a space in it, as a caller may supply it. *)
Definition props1_2 : Props :=
  mkProps (Some "1 2") (Some 0%nat) 6 None true None false.

Definition nativeSelection (st : State) : option (option Z * option Z) :=
  option_map (fun el => (Dom.selectionStart el, Dom.selectionEnd el))
             (inputRef st).

Definition mirror (st : State) : option Z * option Z :=
  (mirrorSelectionStart st, mirrorSelectionEnd st).

Definition windowWidth (w : option Z * option Z) : option Z :=
  match w with
  | (Some s, Some e) => Some (e - s)
  | _ => None
  end.

(** The key handler followed by the callbacks it deferred: whether the
    default was prevented, the native selection, the mirror and the active
    slots at the end. *)
Definition pressed (p : Props) (st : State) (e : Dom.KeyboardEvent)
  : result (bool * option (option Z * option Z)
            * (option Z * option Z) * list nat) :=
  o <- onKeyDown p st e ;;
  st' <- settle 4 p (deferred o) (state o) ;;
  Ok (defaultPrevented o, nativeSelection st', mirror st', activeSlots p st').

(** *** The remaining handler and attribute of the input *)

(** The [onBlur] of the input. *)
Definition onBlur (st : State) : Outcome :=
  unchanged (set_isFocused st false).

(** The [maxLength] attribute of the input: one more than the prop, for the
    sentinel. *)
Definition inputMaxLength (p : Props) : Z := maxLength p + 1.

(** *** Further vocabulary *)

(** The text of the mounted input. *)
Definition text (st : State) : option string :=
  option_map Dom.value (inputRef st).

(** The native selection is the caret [c], or the range from [s0] to [s1]. *)
Definition selectionIs (el : Dom.input) (s0 s1 : Z) : Prop :=
  Dom.selectionStart el = Some s0 /\ Dom.selectionEnd el = Some s1.

(** [_selectListener]'s insert mode: the caret is at [value.length] and the
    value is not full. *)
Definition insertMode (p : Props) (st : State) (c : Z) : Prop :=
  c = len (value p st) /\ len (value p st) < maxLength p.

(** Where the one-character window that replaces the caret [c] starts. *)
Definition windowStart (p : Props) (st : State) (c : Z) : Z :=
  if c =? 0 then 0
  else if c =? len (value p st) then c - 1
  else c.

(** The event is ArrowLeft with no modifier key. *)
Definition plainArrowLeft (e : Dom.KeyboardEvent) : Prop :=
  Dom.key e = "ArrowLeft" /\ Dom.shiftKey e = false /\ Dom.metaKey e = false
  /\ Dom.ctrlKey e = false /\ Dom.altKey e = false.

(** The event is ArrowLeft or ArrowRight with Alt and without Shift. *)
Definition altArrow (e : Dom.KeyboardEvent) : Prop :=
  Dom.altKey e = true /\ Dom.shiftKey e = false
  /\ (Dom.key e = "ArrowLeft" \/ Dom.key e = "ArrowRight").

(** The characters of the slots, in order. *)
Definition chars (sl : list Slot) : list (option ascii) := map char sl.

End OTPInput.

Import JsString OTPInput.

(** ** The completion callback *)

Section Completion.

Lemma deps_eqb_value m1 c1 v1 m2 c2 v2 :
  deps_eqb (m1, c1, v1) (m2, c2, v2) = true -> v1 = v2.
Proof.
  unfold deps_eqb. intros H.
  apply andb_true_iff in H as [_ H].
  now apply String.eqb_eq.
Qed.

Lemma entersFullb_spec previous r :
  entersFullb previous r = true <-> entersFull previous r.
Proof.
  unfold entersFullb, entersFull.
  rewrite !andb_true_iff, negb_true_iff, Z.ltb_lt, Z.eqb_eq.
  split; intros [[H1 H2] H3] || intros [H1 [H2 H3]]; repeat split; auto.
  - intros E. apply String.eqb_eq in E. congruence.
  - apply not_true_is_false. intros E. apply String.eqb_eq in E. auto.
Qed.

(** After any render the hooks hold that render's value. *)
Lemma render_hooks h r :
  fst (render h r)
  = {| previousRef := Some (r_value r);
       completionDeps :=
         Some (r_maxLength r, r_onComplete r, r_value r) |}.
Proof. reflexivity. Qed.

(** A render that follows the render of [previous]. *)
Lemma render_after m c previous r :
  completions
    (snd (render {| previousRef := Some previous;
                    completionDeps := Some (m, c, previous) |} r))
  = match r_onComplete r with
    | Some _ => if entersFullb previous r then [r_value r] else []
    | None => []
    end.
Proof.
  unfold render; cbn [previousRef completionDeps snd].
  destruct (deps_eqb (m, c, previous) _) eqn:D; cbn [negb].
  - apply deps_eqb_value in D. subst previous.
    unfold entersFullb. rewrite String.eqb_refl. cbn.
    now destruct (r_onComplete r).
  - unfold completionEffect, entersFullb.
    destruct (negb _ && _ && _); [|now destruct (r_onComplete r)].
    now destruct (r_onComplete r).
Qed.

Lemma completions_app a b :
  completions (a ++ b) = (completions a ++ completions b)%list.
Proof.
  induction a as [|[] a IH]; cbn; auto. now rewrite IH.
Qed.

Lemma renders_after rs :
  forall m c previous,
    Forall (fun r => r_onComplete r <> None) rs ->
    completions
      (snd (renders {| previousRef := Some previous;
                       completionDeps := Some (m, c, previous) |} rs))
    = fullTransitions previous rs.
Proof.
  induction rs as [|r rs IH]; intros m c previous Hall; [reflexivity|].
  inversion Hall as [|? ? Hr Hrs]; subst.
  cbn [renders fullTransitions].
  pose proof (render_after m c previous r) as Hstep.
  pose proof (render_hooks
                {| previousRef := Some previous;
                   completionDeps := Some (m, c, previous) |} r) as Hh.
  destruct (render _ r) as [h1 c1]. cbn [fst snd] in *. subst h1.
  specialize (IH (r_maxLength r) (r_onComplete r) (r_value r) Hrs).
  destruct (renders _ rs) as [h2 c2]. cbn [snd] in *.
  rewrite completions_app, Hstep, IH.
  destruct (r_onComplete r); [reflexivity | congruence].
Qed.

(** C1. Over the life of a component that is given a completion callback,
    from the render of its first value [r0] on, the callback is called
    exactly at the updates that enter the full state (the value changed, the
    previous one was shorter than [maxLength], the new one has [maxLength]
    characters), once each and with the new value.  Update by update: the
    render that follows the render of [rprev] calls it once when the update
    enters the full state, and not at all when the previous value was
    already [maxLength] long. *)
Theorem completion_fires_once_per_transition r0 rs :
  Forall (fun r => r_onComplete r <> None) rs ->
  completions (snd (renders mount (r0 :: rs)))
  = fullTransitions (r_value r0) rs
  /\ (forall h0 rprev r,
         In r rs ->
         let h := fst (render h0 rprev) in
         (entersFull (r_value rprev) r ->
          completions (snd (render h r)) = [r_value r])
         /\ (len (r_value rprev) = r_maxLength r ->
             completions (snd (render h r)) = [])).
Proof.
  intros Hall. split.
  - cbn [renders].
    pose proof (render_hooks mount r0) as Hh.
    assert (Hc : snd (render mount r0) = []) by reflexivity.
    destruct (render mount r0) as [h1 c1]. cbn [fst snd] in *. subst h1 c1.
    pose proof (renders_after rs (r_maxLength r0) (r_onComplete r0)
                  (r_value r0) Hall) as H.
    destruct (renders _ rs) as [h2 c2]. exact H.
  - intros h0 rprev r Hin h. subst h. rewrite render_hooks, render_after.
    rewrite Forall_forall in Hall. specialize (Hall r Hin).
    destruct (r_onComplete r); [clear Hall | congruence].
    split.
    + intros H. apply entersFullb_spec in H. now rewrite H.
    + intros H. unfold entersFullb.
      replace (len (r_value rprev) <? r_maxLength r) with false
        by (symmetry; apply Z.ltb_ge; lia).
      now rewrite andb_false_r.
Qed.

Lemma completion_fires_once_per_transition_witness :
  let r0 := mkRender 6 (Some 0%nat) "12345" in
  let rs := [mkRender 6 (Some 0%nat) "123456";
             mkRender 6 (Some 1%nat) "123456";
             mkRender 6 (Some 1%nat) "123457";
             mkRender 6 (Some 1%nat) "12345";
             mkRender 6 (Some 1%nat) "123458"] in
  Forall (fun r => r_onComplete r <> None) rs
  /\ completions (snd (renders mount (r0 :: rs))) = ["123456"; "123458"].
Proof.
  intros r0 rs.
  assert (H : Forall (fun r => r_onComplete r <> None) rs)
    by (repeat constructor; discriminate).
  split; [exact H|].
  exact (proj1 (completion_fires_once_per_transition r0 rs H)).
Defined.

End Completion.

(** ** Replacing a single code unit *)

Section ReplaceOne.

Variable c : ascii.

Let pat : string := String c EmptyString.

Lemma prefix_empty s : String.prefix EmptyString s = true.
Proof. now destruct s. Qed.

Lemma prefix_one d s :
  String.prefix pat (String d s) = Ascii.eqb d c.
Proof.
  subst pat. cbn [String.prefix]. rewrite prefix_empty.
  destruct (ascii_dec c d) as [->|N].
  - now rewrite Ascii.eqb_refl.
  - symmetry. apply Ascii.eqb_neq. congruence.
Qed.

Lemma replace_nil : replace EmptyString pat "" = EmptyString.
Proof. reflexivity. Qed.

Lemma replace_cons d s :
  replace (String d s) pat ""
  = if Ascii.eqb d c then s else String d (replace s pat "").
Proof.
  cbn [replace]. rewrite prefix_one. now destruct (Ascii.eqb d c).
Qed.

Lemma includes_cons d s :
  includes (String d s) pat = Ascii.eqb d c || includes s pat.
Proof.
  cbn [includes]. rewrite prefix_one. now destruct (Ascii.eqb d c).
Qed.

Lemma includes_count s :
  includes s pat = negb (Nat.eqb (count c s) 0).
Proof.
  induction s as [|d s IH]; [reflexivity|].
  rewrite includes_cons, IH. cbn [count].
  now destruct (Ascii.eqb d c).
Qed.

(** The first occurrence goes, and only that one. *)
Lemma count_replace_same s :
  count c (replace s pat "") = Nat.pred (count c s).
Proof.
  induction s as [|d s IH]; [reflexivity|].
  rewrite replace_cons. cbn [count].
  destruct (Ascii.eqb d c) eqn:E; cbn [count]; [reflexivity|].
  now rewrite E, IH.
Qed.

Lemma count_replace_other d s :
  d <> c -> count d (replace s pat "") = count d s.
Proof.
  intros N. induction s as [|a s IH]; [reflexivity|].
  rewrite replace_cons. cbn [count].
  destruct (Ascii.eqb a c) eqn:E; cbn [count].
  - apply Ascii.eqb_eq in E. subst a.
    destruct (Ascii.eqb c d) eqn:E'; [|reflexivity].
    apply Ascii.eqb_eq in E'. congruence.
  - now rewrite IH.
Qed.

Lemma length_replace s :
  String.length (replace s pat "")
  = (String.length s - (if includes s pat then 1 else 0))%nat.
Proof.
  induction s as [|d s IH]; [reflexivity|].
  rewrite replace_cons, includes_cons.
  destruct (Ascii.eqb d c); cbn [orb String.length]; [lia|].
  rewrite IH. destruct (includes s pat) eqn:I; [|lia].
  rewrite includes_count in I. destruct s; [discriminate|cbn; lia].
Qed.

Lemma replace_absent s :
  includes s pat = false -> replace s pat "" = s.
Proof.
  induction s as [|d s IH]; [reflexivity|].
  rewrite replace_cons, includes_cons. intros H.
  apply orb_false_iff in H as [-> H]. now rewrite IH.
Qed.

(** With at most one occurrence, replacing the first removes them all. *)
Lemma replace_withoutAll s :
  (count c s <= 1)%nat -> replace s pat "" = withoutAll c s.
Proof.
  induction s as [|d s IH]; [reflexivity|].
  rewrite replace_cons. cbn [count withoutAll].
  destruct (Ascii.eqb d c) eqn:E; intros H.
  - assert (I : includes s pat = false)
      by (rewrite includes_count; destruct (count c s); [reflexivity|lia]).
    clear IH H. induction s as [|a s IH]; [reflexivity|].
    rewrite includes_cons in I. apply orb_false_iff in I as [Ea I].
    cbn [withoutAll]. rewrite Ea. f_equal. exact (IH I).
  - now rewrite IH by (cbn in H; lia).
Qed.

Lemma count_withoutAll s : count c (withoutAll c s) = 0%nat.
Proof.
  induction s as [|d s IH]; [reflexivity|].
  cbn [withoutAll]. destruct (Ascii.eqb d c) eqn:E; [exact IH|].
  cbn [count]. now rewrite E, IH.
Qed.

End ReplaceOne.

(** ** Changes of the text *)

Section Change.

Lemma len_gt_0 s : (len s >? 0) = true <-> s <> EmptyString.
Proof.
  unfold len. destruct s as [|a s]; cbn [String.length].
  - split; [discriminate | congruence].
  - split; [discriminate | reflexivity].
Qed.

(** The condition under which [_changeListener] returns early. *)
Lemma rejects_iff p s :
  (len s >? 0)
  && match regexp p with
     | Some test => negb (test s)
     | None => false
     end = true
  <-> s <> EmptyString /\ failsPattern p s.
Proof.
  rewrite andb_true_iff, len_gt_0. unfold failsPattern.
  split; intros [H1 H2]; split; auto.
  - destruct (regexp p) as [test|]; [|discriminate].
    exists test. split; [reflexivity|]. now apply negb_true_iff.
  - destruct H2 as [test [-> H2]]. now rewrite H2.
Qed.

(** C2. A change whose sanitized text is non-empty and fails the pattern is
    rejected: the default is prevented, [onChange] is not called and the
    state, hence the value, stays as it was.  Every other change hands the
    sanitized text to [onChange]: to the caller's handler when there is one,
    and otherwise into the internal value, which is then the value of an
    uncontrolled input.  So the sanitized text of an accepted change is empty
    or satisfies the pattern. *)
Theorem change_rejected_or_committed p st text :
  let s := sanitize text in
  let o := _changeListener p st text in
  (s <> EmptyString /\ failsPattern p s ->
   defaultPrevented o = true /\ calls o = [] /\ state o = st
   /\ value p (state o) = value p st)
  /\ (~ (s <> EmptyString /\ failsPattern p s) ->
      defaultPrevented o = false
      /\ (forall cb, onChange p = Some cb ->
                     calls o = [CallOnChange cb s] /\ state o = st)
      /\ (onChange p = None ->
          calls o = [] /\ internalValue (state o) = s
          /\ (pvalue p = None -> value p (state o) = s)))
  /\ (defaultPrevented o = false -> s = EmptyString \/ satisfiesPattern p s).
Proof.
  intros s o. subst o. unfold _changeListener. fold s.
  pose proof (rejects_iff p s) as R.
  destruct (_ && _) eqn:C.
  - assert (Rj : s <> EmptyString /\ failsPattern p s) by now apply R.
    cbn. repeat split; try tauto; discriminate.
  - assert (Rj : ~ (s <> EmptyString /\ failsPattern p s)).
    { intros H. apply R in H. discriminate. }
    unfold do_onChange, value.
    split; [tauto|]. split.
    + intros _. destruct (onChange p) as [cb|]; cbn.
      * split; [reflexivity|]. split; [|discriminate].
        intros cb' E. inversion E. now subst.
      * split; [reflexivity|]. split; [discriminate|].
        intros _. split; [reflexivity|]. split; [reflexivity|].
        now intros ->.
    + intros _. destruct s as [|a s'] eqn:Es; [now left|right].
      intros test Ht. destruct (test (String a s')) eqn:T; [reflexivity|].
      exfalso. apply Rj. split; [discriminate|]. now exists test.
Qed.

Lemma change_rejected_or_committed_witness :
  let digit1 := fun s : string => String.eqb s "7" in
  let p := mkProps None None 6 (Some digit1) true None false in
  let st := mkState "12" false true None None None in
  (sanitize "@a" <> EmptyString /\ failsPattern p (sanitize "@a"))
  /\ value p (state (_changeListener p st "@a")) = "12"
  /\ ~ (sanitize "@7" <> EmptyString /\ failsPattern p (sanitize "@7"))
  /\ value p (state (_changeListener p st "@7")) = "7".
Proof.
  intros digit1 p st.
  assert (F : sanitize "@a" <> EmptyString /\ failsPattern p (sanitize "@a")).
  { split; [discriminate|]. exists digit1. split; reflexivity. }
  assert (A : ~ (sanitize "@7" <> EmptyString
                 /\ failsPattern p (sanitize "@7"))).
  { intros [_ [test [E T]]]. cbn in E. inversion E; subst test.
    discriminate. }
  split; [exact F|]. split.
  - pose proof (proj1 (change_rejected_or_committed p st "@a") F) as H.
    cbv zeta in H. destruct H as (_ & _ & _ & ->). reflexivity.
  - split; [exact A|].
    pose proof (proj1 (proj2 (change_rejected_or_committed p st "@7")) A)
      as H.
    cbv zeta in H. destruct H as (_ & _ & H).
    destruct (H eq_refl) as (_ & _ & Hv). exact (Hv eq_refl).
Defined.

(** What sanitizing does to the number of spaces and of sentinel
    characters: one of each goes, when there is one. *)
Lemma sanitize_counts text :
  count space (sanitize text) = Nat.pred (count space text)
  /\ count ghost (sanitize text) = Nat.pred (count ghost text).
Proof.
  unfold sanitize, removeGhostCharacter, GHOST_CHARACTER. split.
  - rewrite (count_replace_other ghost space) by discriminate.
    apply (count_replace_same space).
  - rewrite (count_replace_same ghost).
    now rewrite (count_replace_other space ghost) by discriminate.
Qed.

(** C3. Pasting [1 2 3] into the empty input makes its text [@1 2 3]; the
    sanitized text is [12 3], which still contains a space, and under the
    digits-only pattern the paste is rejected as a whole.  With two sentinel
    characters in the text, one is left. *)
Theorem sanitize_leaves_second_occurrence :
  sanitize "@1 2 3" = "12 3"
  /\ count space (sanitize "@1 2 3") = 1%nat
  /\ sanitize "@@1" = "@1"
  /\ count ghost (sanitize "@@1") = 1%nat
  /\ withoutAll space (withoutAll ghost "@1 2 3") = "123".
Proof. repeat split. Qed.

End Change.

(** ** The mirrored selection *)

Section Mirror.

Lemma fixSelection_shift selection :
  fixSelection selection = shiftLeft selection.
Proof.
  destruct selection as [n|]; [|reflexivity].
  unfold fixSelection. now destruct (n >? 1).
Qed.

(** C4. [fixSelection] maps a null endpoint to null and any other endpoint
    [n] to [n - 1], so 1 to 0; and the mirror that [_selectListener] defers
    is made of the two endpoints of the native selection, as the listener
    left it, each shifted so. *)
Theorem mirror_is_native_shifted_by_one p st el :
  fixSelection None = None
  /\ (forall n, fixSelection (Some n) = Some (n - 1))
  /\ fixSelection (Some 1) = Some 0
  /\ let o := _selectListener p (set_inputRef st el) in
     deferred o = [TaskSyncMirror]
     /\ exists el' st',
         inputRef (state o) = Some el'
         /\ syncMirror (state o) = Ok st'
         /\ mirrorSelectionStart st' = shiftLeft (Dom.selectionStart el')
         /\ mirrorSelectionEnd st' = shiftLeft (Dom.selectionEnd el')
         /\ inputRef st' = Some el'.
Proof.
  split; [reflexivity|]. split; [intros n; apply fixSelection_shift|].
  split; [reflexivity|].
  unfold _selectListener. cbn [inputRef set_inputRef].
  match goal with
  | |- context [ {| state := set_inputRef _ ?e |} ] => set (el' := e)
  end.
  cbn [deferred state]. split; [reflexivity|].
  exists el'. eexists. split; [reflexivity|].
  unfold syncMirror. cbn [inputRef set_inputRef].
  split; [reflexivity|]. cbn. rewrite !fixSelection_shift. auto.
Qed.

End Mirror.

(** ** Key handling *)

Section Keys.

Lemma classify_ordered s0 s1 :
  s0 <= s1 ->
  exists t, classify s0 s1 = Ok t /\ shape s0 s1 t.
Proof.
  intros H. unfold classify.
  destruct (s0 =? s1) eqn:E0.
  { exists CARET. split; [reflexivity|]. now apply Z.eqb_eq. }
  destruct (s1 - s0 =? 1) eqn:E1.
  { exists CHAR. split; [reflexivity|]. now apply Z.eqb_eq. }
  destruct (s1 - s0 >? 1) eqn:E2.
  { exists MULTI. split; [reflexivity|]. cbn. lia. }
  apply Z.eqb_neq in E0, E1. lia.
Qed.

Lemma classify_throws s0 s1 m :
  classify s0 s1 = Throw m -> s1 < s0.
Proof.
  unfold classify.
  destruct (s0 =? s1) eqn:E0; [discriminate|].
  destruct (s1 - s0 =? 1) eqn:E1; [discriminate|].
  destruct (s1 - s0 >? 1) eqn:E2; [discriminate|].
  intros _. apply Z.eqb_neq in E0, E1. lia.
Qed.

Lemma shape_unique s0 s1 t t' :
  shape s0 s1 t -> shape s0 s1 t' -> t = t'.
Proof. destruct t, t'; cbn; intros; try reflexivity; lia. Qed.

(** Past the classification the key handler cannot throw. *)
Lemma keyDown_after_classify p st e el s0 s1 :
  inputRef st = Some el ->
  Dom.selectionStart el = Some s0 ->
  Dom.selectionEnd el = Some s1 ->
  (forall t, classify s0 s1 = Ok t ->
             exists o, _keyDownListener p st e = Ok o)
  /\ (forall m, _keyDownListener p st e = Throw m ->
                classify s0 s1 = Throw m).
Proof.
  intros Hel H0 H1. unfold _keyDownListener. rewrite Hel, H0, H1.
  destruct (classify s0 s1) as [t|m0]; cbn [bind].
  - split.
    + intros _ _.
      destruct (isNavigationKey _); [|eexists; reflexivity].
      destruct (negb (allowNavigation p)); eexists; reflexivity.
    + intros m.
      destruct (isNavigationKey _); [|discriminate].
      destruct (negb (allowNavigation p)); discriminate.
  - split; [discriminate|]. intros m E. now inversion E.
Qed.

(** C9. In the key handler a native selection with non-null endpoints
    [s0 <= s1] has exactly one of the three shapes and is classified as it:
    caret when [s0 = s1], one character when [s1 - s0 = 1], several when
    [s1 - s0 > 1]; the handler then returns.  It throws only for a selection
    with [s1 < s0], which has none of the shapes. *)
Theorem keyDown_classifies_ordered_selection p st e el s0 s1 :
  inputRef st = Some el ->
  Dom.selectionStart el = Some s0 ->
  Dom.selectionEnd el = Some s1 ->
  (s0 <= s1 ->
   (exists t, classify s0 s1 = Ok t /\ shape s0 s1 t
              /\ forall t', shape s0 s1 t' -> t' = t)
   /\ (exists o, _keyDownListener p st e = Ok o))
  /\ (forall m, _keyDownListener p st e = Throw m ->
                s1 < s0 /\ forall t, ~ shape s0 s1 t).
Proof.
  intros Hel H0 H1.
  destruct (keyDown_after_classify p st e el s0 s1 Hel H0 H1) as [Hok Hthrow].
  split.
  - intros Hle. destruct (classify_ordered s0 s1 Hle) as [t [Hc Hs]].
    split; [|now apply (Hok t)].
    exists t. repeat split; auto.
    intros t' Hs'. now apply (shape_unique s0 s1).
  - intros m Hm. apply Hthrow, classify_throws in Hm.
    split; [exact Hm|]. intros [] Hs; cbn in Hs; lia.
Qed.

Lemma keyDown_classifies_ordered_selection_witness :
  let p := mkProps (Some "12") None 6 None true None false in
  let el := Dom.mkInput "@12" (Some 1) (Some 3) in
  let st := mkState "" false true (Some 0) (Some 2) (Some el) in
  let e := Dom.mkKey "ArrowLeft" false false false false in
  1 <= 3
  /\ (exists t, classify 1 3 = Ok t /\ shape 1 3 t
                /\ forall t', shape 1 3 t' -> t' = t)
  /\ (exists o, _keyDownListener p st e = Ok o).
Proof.
  intros p el st e.
  assert (H : 1 <= 3) by lia.
  split; [exact H|].
  exact (proj1 (keyDown_classifies_ordered_selection
                  p st e el 1 3 eq_refl eq_refl eq_refl) H).
Defined.

(** The scenario's state is the one a focus leaves. *)
Lemma focused12_reached : state (onFocus props12 blurred12) = focused12.
Proof. reflexivity. Qed.

(** C5. With the value [12] (the input's text is [@12]) and navigation
    enabled, Alt+ArrowRight sets the native selection to [1, 2), the
    character [1] of the text, and the mirror to [0, 1): slot 0 is the
    active one, not slot 1.  Alt+ArrowLeft selects [0, 1), the sentinel
    itself; the mirror is [-1, 0) and no slot is active. *)
Theorem alt_arrows_select_one_position_too_far_left :
  pressed props12 focused12 (Dom.mkKey "ArrowRight" false false false true)
  = Ok (true, Some (Some 1, Some 2), (Some 0, Some 1), [0%nat])
  /\ pressed props12 focused12 (Dom.mkKey "ArrowLeft" false false false true)
     = Ok (true, Some (Some 0, Some 1), (Some (-1), Some 0), []).
Proof. split; reflexivity. Qed.

End Keys.

(** ** Programmatic selection and focus *)

Section SelectAndFocus.

Lemma len_includeGhostCharacter v :
  len (includeGhostCharacter v)
  = len v + (if includes v GHOST_CHARACTER then 0 else 1).
Proof.
  unfold includeGhostCharacter, len.
  destruct (includes v GHOST_CHARACTER); cbn [String.length append
    GHOST_CHARACTER]; lia.
Qed.


(** With navigation enabled [select] sets the mirror to the whole text of
    the input, sentinel included. *)
Lemma select_enabled p st el :
  shows p st el ->
  allowNavigation p = true ->
  exists st',
    select p st = Ok st'
    /\ nativeSelection st'
       = Some (Some 0, Some (len (includeGhostCharacter (value p st))))
    /\ mirror st'
       = (Some 0, Some (len (includeGhostCharacter (value p st)))).
Proof.
  intros [H V] N. unfold select. rewrite H, N. cbn [negb].
  eexists. split; [reflexivity|].
  unfold nativeSelection, mirror. cbn. now rewrite V.
Qed.

(** C6. With navigation enabled and the value [12] (two characters, the
    input's text being [@12]), [select] sets the mirror to [0, 3): one more
    than the value's length, so that the three slots 0, 1 and 2 are
    active.  With navigation disabled it changes nothing. *)
Theorem select_mirror_end_counts_sentinel :
  len (value props12 focused12) = 2
  /\ (st' <- select props12 focused12 ;;
      Ok (nativeSelection st', mirror st', activeSlots props12 st'))
     = Ok (Some (Some 0, Some 3), (Some 0, Some 3), [0%nat; 1%nat; 2%nat])
  /\ select props12_noNavigation focused12 = Ok focused12.
Proof. repeat split. Qed.

Lemma ToUint32_small x : 0 <= x < 2 ^ 32 -> Dom.ToUint32 x = x.
Proof. intros H. unfold Dom.ToUint32. now apply Z.mod_small. Qed.

(** On focus of an input that is not full, and whose value has no sentinel
    character in it, the window has width one and ends at the end of the
    text. *)
Lemma focus_window_not_full p st el :
  shows p st el ->
  includes (value p st) GHOST_CHARACTER = false ->
  len (value p st) < maxLength p ->
  len (value p st) + 1 < 2 ^ 32 ->
  let n := len (value p st) in
  let st' := state (onFocus p st) in
  nativeSelection st' = Some (Some n, Some (n + 1))
  /\ mirror st' = (Some n, Some (n + 1))
  /\ windowWidth (mirror st') = Some 1
  /\ isFocused st' = true.
Proof.
  intros [H V] G Hlt Hbound n st'. subst st'. unfold onFocus. rewrite H.
  pose proof (len_includeGhostCharacter (value p st)) as L.
  rewrite G in L. rewrite <- V in L. fold n in L.
  assert (Hn : 0 <= n) by (unfold n, len; lia).
  unfold nativeSelection, mirror, Dom.setSelectionRange. cbn.
  rewrite L.
  replace (Z.min (n + 1 - 1) (maxLength p - 1)) with n by lia.
  rewrite !ToUint32_small by (fold n in Hbound; lia).
  replace (Z.min (n + 1) (n + 1)) with (n + 1) by lia.
  replace (Z.min n (n + 1)) with n by lia.
  rewrite Z.min_l by lia.
  repeat split. f_equal. lia.
Qed.

(** C7. With the value [12] filling an input of two slots (the input's
    text is [@12]), a focus sets the native selection and the mirror to
    [1, 3): a window of width two, over both characters of the value. *)
Theorem focus_window_on_full_value_has_width_two :
  len (value props12_full blurred12) = maxLength props12_full
  /\ nativeSelection (state (onFocus props12_full blurred12))
     = Some (Some 1, Some 3)
  /\ mirror (state (onFocus props12_full blurred12)) = (Some 1, Some 3)
  /\ windowWidth (mirror (state (onFocus props12_full blurred12))) = Some 2.
Proof. repeat split. Qed.

End SelectAndFocus.

(** ** Copy *)

Section Copy.

Lemma removeGhostCharacter_not_internal v :
  removeGhostCharacter v <> includeGhostCharacter v.
Proof.
  intros E. apply (f_equal String.length) in E.
  unfold removeGhostCharacter, includeGhostCharacter, GHOST_CHARACTER in E.
  rewrite (length_replace ghost) in E.
  change (String "@" "") with (String ghost "") in E.
  destruct (includes v (String ghost "")) eqn:I.
  - rewrite (includes_count ghost) in I.
    destruct v; [discriminate|]. cbn [String.length] in E. lia.
  - cbn [String.length append] in E. lia.
Qed.

(** C8, as the claim states it, fails: the value [1 2] is copied with its
    space. *)
Lemma copy_keeps_the_spaces_of_the_value :
  calls (onCopy props1_2 focused12 true)
  <> [ClipboardWriteText
        (withoutAll space (withoutAll ghost (value props1_2 focused12)))].
Proof. cbn. discriminate. Qed.

(** C8, amended. A copy event, when the clipboard is there, is prevented and
    writes the value with its sentinel character removed (all of them when
    the value has at most one) and with the spaces the value has; what it
    writes is never the text of the input, with its sentinel.  Without the
    clipboard the handler writes nothing and prevents nothing. *)
Theorem copy_writes_value_without_sentinel p st :
  let v := value p st in
  let o := onCopy p st true in
  calls o = [ClipboardWriteText (removeGhostCharacter v)]
  /\ defaultPrevented o = true
  /\ state o = st
  /\ removeGhostCharacter v <> includeGhostCharacter v
  /\ count space (removeGhostCharacter v) = count space v
  /\ ((count ghost v <= 1)%nat ->
      removeGhostCharacter v = withoutAll ghost v)
  /\ onCopy p st false = unchanged st.
Proof.
  intros v o. repeat split.
  - apply removeGhostCharacter_not_internal.
  - apply (count_replace_other ghost space). discriminate.
  - apply (replace_withoutAll ghost).
Qed.

Lemma copy_writes_value_without_sentinel_witness :
  (count ghost (value props12 focused12) <= 1)%nat
  /\ calls (onCopy props12 focused12 true) = [ClipboardWriteText "12"].
Proof.
  assert (H : (count ghost (value props12 focused12) <= 1)%nat)
    by (cbn; lia).
  split; [exact H|].
  destruct (copy_writes_value_without_sentinel props12 focused12)
    as (Hc & _ & _ & _ & _ & Hw & _).
  cbv zeta in Hc, Hw. rewrite Hc, (Hw H). reflexivity.
Defined.

End Copy.

(** ** Slots *)

Section Slots.

Lemma get_inside s : forall n,
  (n < String.length s)%nat -> exists c, String.get n s = Some c.
Proof.
  induction s as [|a s IH]; intros n H; cbn in H; [lia|].
  destruct n as [|n]; cbn; [eauto|]. apply IH. lia.
Qed.

Lemma get_outside s : forall n,
  (String.length s <= n)%nat -> String.get n s = None.
Proof.
  induction s as [|a s IH]; intros n H; [now destruct n|].
  destruct n as [|n]; cbn in *; [lia|]. apply IH. lia.
Qed.

Lemma slot_nth p st i :
  0 <= i < maxLength p ->
  nth_error (slots p st) (Z.to_nat i) = Some (slot p st i).
Proof.
  intros H. unfold slots.
  rewrite nth_error_map, nth_error_seq.
  replace (Nat.ltb (Z.to_nat i) (Z.to_nat (maxLength p))) with true
    by (symmetry; apply Nat.ltb_lt; lia).
  cbn. now rewrite Z2Nat.id by lia.
Qed.

(** C10. For a [maxLength] that is not negative the render callback gets
    exactly [maxLength] slots, whatever the value; slot [i] carries the
    [i]-th character of the value when [i] is below the value's length and
    null otherwise; and its [hasFakeCaret] is set exactly when the slot is
    active and its character is null. *)
Theorem slots_follow_value p st :
  0 <= maxLength p ->
  Z.of_nat (List.length (slots p st)) = maxLength p
  /\ forall i, 0 <= i < maxLength p ->
       exists sl,
         nth_error (slots p st) (Z.to_nat i) = Some sl
         /\ (i < len (value p st) ->
             exists c, String.get (Z.to_nat i) (value p st) = Some c
                       /\ char sl = Some c)
         /\ (len (value p st) <= i -> char sl = None)
         /\ (hasFakeCaret sl = true
             <-> isActive sl = true /\ char sl = None).
Proof.
  intros Hm. split.
  - unfold slots. rewrite length_map, length_seq. lia.
  - intros i Hi. exists (slot p st i). split; [now apply slot_nth|].
    unfold slot; cbn [char isActive hasFakeCaret]. unfold at_.
    replace (i <? 0) with false by (symmetry; apply Z.ltb_ge; lia).
    split; [|split].
    + intros Hlt. unfold len in Hlt.
      destruct (get_inside (value p st) (Z.to_nat i)) as [c Hc]; [lia|].
      exists c. now rewrite Hc.
    + intros Hge. unfold len in Hge. apply get_outside. lia.
    + rewrite andb_true_iff.
      destruct (String.get (Z.to_nat i) (value p st));
        split; intros [A B]; split; auto; discriminate.
Qed.

Lemma slots_follow_value_witness :
  0 <= maxLength props12
  /\ Z.of_nat (List.length (slots props12 focused12)) = 6
  /\ exists sl, nth_error (slots props12 focused12) 2 = Some sl
                /\ char sl = None /\ hasFakeCaret sl = true.
Proof.
  assert (H : 0 <= maxLength props12) by (cbn; lia).
  destruct (slots_follow_value props12 focused12 H) as [Hlen Hslots].
  split; [exact H|]. split; [exact Hlen|].
  destruct (Hslots 2) as (sl & Hnth & _ & Hnone & Hcaret); [cbn; lia|].
  exists sl. split; [exact Hnth|].
  assert (Hc : char sl = None) by (apply Hnone; cbn; lia).
  split; [exact Hc|].
  apply Hcaret. split; [|exact Hc].
  cbn in Hnth. inversion Hnth. reflexivity.
Defined.

End Slots.

(** ** The sentinel character, there and back *)

Section Sentinel.

Lemma includes_ghost_count v :
  includes v GHOST_CHARACTER = negb (Nat.eqb (count ghost v) 0).
Proof. apply (includes_count ghost). Qed.

Lemma includes_space_count v :
  includes v " " = negb (Nat.eqb (count space v) 0).
Proof. apply (includes_count space). Qed.

Lemma includeGhostCharacter_absent v :
  includes v GHOST_CHARACTER = false ->
  includeGhostCharacter v = String ghost v.
Proof. intros H. unfold includeGhostCharacter. now rewrite H. Qed.

Lemma includeGhostCharacter_present v :
  includes v GHOST_CHARACTER = true -> includeGhostCharacter v = v.
Proof. intros H. unfold includeGhostCharacter. now rewrite H. Qed.

(** X1. The text given to the input always contains the sentinel, so it is never
    empty; it is the value itself or one code unit longer; and adding the
    sentinel to it again changes nothing. *)
Theorem includeGhostCharacter_contains_sentinel v :
  includes (includeGhostCharacter v) GHOST_CHARACTER = true
  /\ includeGhostCharacter v <> EmptyString
  /\ len v <= len (includeGhostCharacter v) <= len v + 1
  /\ includeGhostCharacter (includeGhostCharacter v) = includeGhostCharacter v.
Proof.
  assert (I : includes (includeGhostCharacter v) GHOST_CHARACTER = true).
  { destruct (includes v GHOST_CHARACTER) eqn:G.
    - now rewrite includeGhostCharacter_present.
    - rewrite includeGhostCharacter_absent by exact G.
      unfold GHOST_CHARACTER. rewrite (includes_cons ghost).
      now rewrite Ascii.eqb_refl. }
  split; [exact I|]. split; [|split].
  - intros E. rewrite E in I. discriminate.
  - rewrite len_includeGhostCharacter.
    destruct (includes v GHOST_CHARACTER); lia.
  - now apply includeGhostCharacter_present.
Qed.

(** X2. Removing the sentinel from the text of the input gives the value back
    exactly when the value has no sentinel character of its own. *)
Theorem removeGhostCharacter_includeGhostCharacter v :
  removeGhostCharacter (includeGhostCharacter v) = v
  <-> includes v GHOST_CHARACTER = false.
Proof.
  split.
  - intros E. destruct (includes v GHOST_CHARACTER) eqn:G; [|reflexivity].
    rewrite includeGhostCharacter_present in E by exact G.
    apply (f_equal String.length) in E.
    unfold removeGhostCharacter in E.
    change GHOST_CHARACTER with (String ghost EmptyString) in *.
    rewrite (length_replace ghost), G in E.
    rewrite (includes_count ghost) in G.
    destruct v; [discriminate|]. cbn [String.length] in E. lia.
  - intros G. rewrite includeGhostCharacter_absent by exact G.
    unfold removeGhostCharacter, GHOST_CHARACTER.
    rewrite (replace_cons ghost). now rewrite Ascii.eqb_refl.
Qed.

Lemma count_zero_includes c v :
  count c v = 0%nat -> includes v (String c EmptyString) = false.
Proof. intros H. now rewrite (includes_count c), H. Qed.

Lemma includes_false_count c v :
  includes v (String c EmptyString) = false -> count c v = 0%nat.
Proof.
  rewrite (includes_count c). destruct (count c v); [reflexivity|discriminate].
Qed.

(** X3. A change event that carries the text of the input unedited gives the
    value back exactly when the value has neither a space nor a sentinel
    character in it. *)
Theorem sanitize_includeGhostCharacter v :
  sanitize (includeGhostCharacter v) = v
  <-> count space v = 0%nat /\ count ghost v = 0%nat.
Proof.
  split.
  - intros E.
    destruct (sanitize_counts (includeGhostCharacter v)) as [Hs Hg].
    rewrite E in Hs, Hg.
    destruct (includes v GHOST_CHARACTER) eqn:G.
    + rewrite includeGhostCharacter_present in Hg by exact G.
      rewrite includes_ghost_count in G.
      destruct (count ghost v); [discriminate|]. cbn in Hg. lia.
    + rewrite includeGhostCharacter_absent in Hs by exact G.
      split; [|now apply includes_false_count].
      cbn [count] in Hs.
      replace (Ascii.eqb ghost space) with false in Hs by reflexivity.
      destruct (count space v); [reflexivity|]. cbn in Hs. lia.
  - intros [Hs Hg]. apply count_zero_includes in Hs, Hg.
    rewrite includeGhostCharacter_absent by exact Hg.
    unfold sanitize, removeGhostCharacter, GHOST_CHARACTER.
    rewrite (replace_cons space).
    replace (Ascii.eqb ghost space) with false by reflexivity.
    rewrite (replace_absent space) by exact Hs.
    rewrite (replace_cons ghost). now rewrite Ascii.eqb_refl.
Qed.

Lemma len_replace c s :
  len (replace s (String c EmptyString) "")
  = len s - (if includes s (String c EmptyString) then 1 else 0).
Proof.
  unfold len. rewrite (length_replace c).
  destruct (includes s (String c EmptyString)) eqn:I; [|lia].
  rewrite (includes_count c) in I. destruct s; [discriminate|].
  cbn [String.length]. lia.
Qed.

Lemma includes_replace_other c d s :
  d <> c ->
  includes (replace s (String c EmptyString) "") (String d EmptyString)
  = includes s (String d EmptyString).
Proof.
  intros N. rewrite !(includes_count d).
  now rewrite (count_replace_other c d) by exact N.
Qed.

(** Sanitizing shortens the text by one for a space in it and by one for a
    sentinel in it, and by nothing else. *)
Lemma len_sanitize t :
  len (sanitize t)
  = len t - (if includes t " " then 1 else 0)
          - (if includes t GHOST_CHARACTER then 1 else 0).
Proof.
  unfold sanitize, removeGhostCharacter, GHOST_CHARACTER.
  rewrite (len_replace ghost), (len_replace space).
  now rewrite (includes_replace_other space ghost) by discriminate.
Qed.

(** X5. When the edited text respects the [maxLength] attribute of the input and
    still contains the sentinel, what the change handler hands to [onChange]
    has at most [maxLength] code units. *)
Theorem change_commits_at_most_maxLength p st t :
  len t <= inputMaxLength p ->
  includes t GHOST_CHARACTER = true ->
  let o := _changeListener p st t in
  (forall cb v, In (CallOnChange cb v) (calls o) -> len v <= maxLength p)
  /\ (onChange p = None -> defaultPrevented o = false ->
      len (internalValue (state o)) <= maxLength p).
Proof.
  intros Hlen Hg o. subst o.
  assert (L : len (sanitize t) <= maxLength p).
  { rewrite len_sanitize, Hg. unfold inputMaxLength in Hlen.
    destruct (includes t " "); lia. }
  unfold _changeListener, do_onChange.
  destruct (_ && _); cbn [calls state defaultPrevented].
  - split; [intros cb v []|discriminate].
  - destruct (onChange p) as [cb0|]; cbn [calls state internalValue
      set_internalValue].
    + split; [|discriminate]. intros cb v [E|[]]. now inversion E; subst.
    + split; [intros cb v []|]. auto.
Qed.

Lemma change_commits_at_most_maxLength_witness :
  let p := mkProps None None 6 None true None false in
  let st := mkState "12345" false true None None None in
  len "@123456" <= inputMaxLength p
  /\ includes "@123456" GHOST_CHARACTER = true
  /\ len (internalValue (state (_changeListener p st "@123456"))) <= 6.
Proof.
  intros p st.
  assert (H1 : len "@123456" <= inputMaxLength p) by (cbn; lia).
  assert (H2 : includes "@123456" GHOST_CHARACTER = true) by reflexivity.
  split; [exact H1|]. split; [exact H2|].
  exact (proj2 (change_commits_at_most_maxLength p st "@123456" H1 H2)
               eq_refl eq_refl).
Defined.

(** X6. The change handler leaves the input, the mirror and the focus and hover
    flags alone and defers nothing; with a caller's [onChange] it leaves the
    whole state alone. *)
Theorem change_touches_only_internalValue p st t :
  let o := _changeListener p st t in
  inputRef (state o) = inputRef st
  /\ mirror (state o) = mirror st
  /\ isFocused (state o) = isFocused st
  /\ isHoveringContainer (state o) = isHoveringContainer st
  /\ deferred o = []
  /\ (onChange p <> None -> state o = st).
Proof.
  intros o. subst o. unfold _changeListener, do_onChange.
  destruct (_ && _); cbn; [tauto|].
  destruct (onChange p); cbn; repeat split; congruence.
Qed.

Lemma change_touches_only_internalValue_witness :
  onChange props12 <> None
  /\ state (_changeListener props12 focused12 "@123") = focused12.
Proof.
  assert (H : onChange props12 <> None) by discriminate.
  split; [exact H|].
  destruct (change_touches_only_internalValue props12 focused12 "@123")
    as (_ & _ & _ & _ & _ & K).
  exact (K H).
Defined.

End Sentinel.

(** ** More on the completion callback *)

Section CompletionMore.

Lemma completionEffect_full previous r v :
  In v (completions (completionEffect previous r)) ->
  r_value r = v /\ len v = r_maxLength r.
Proof.
  unfold completionEffect. destruct previous as [pv|]; [|intros []].
  destruct (negb _ && _ && _) eqn:C; [|intros []].
  apply andb_true_iff in C as [_ C]. apply Z.eqb_eq in C.
  cbn [completions]. destruct (r_onComplete r); cbn; [|intros []].
  intros [<-|[]]. auto.
Qed.

Lemma render_full h r v :
  In v (completions (snd (render h r))) ->
  r_value r = v /\ len v = r_maxLength r.
Proof.
  unfold render. cbn [snd].
  destruct (match completionDeps h with
            | Some old => negb (deps_eqb old _)
            | None => true
            end); [apply completionEffect_full | intros []].
Qed.

(** X7. Whatever the renders and whatever came before them, the completion
    callback is only ever called with the value of one of the renders, and
    that value has exactly that render's [maxLength] characters. *)
Theorem completion_only_with_full_value h rs v :
  In v (completions (snd (renders h rs))) ->
  exists r, In r rs /\ r_value r = v /\ len v = r_maxLength r.
Proof.
  revert h. induction rs as [|r rs IH]; intros h; [intros []|].
  cbn [renders].
  pose proof (render_full h r v) as Hr.
  destruct (render h r) as [h1 c1]. cbn [snd] in Hr.
  specialize (IH h1). destruct (renders h1 rs) as [h2 c2]. cbn [snd] in *.
  rewrite completions_app. intros H. apply in_app_or in H as [H|H].
  - exists r. split; [now left | now apply Hr].
  - destruct (IH H) as (r' & Hin & Hv). exists r'. split; [now right|exact Hv].
Qed.

Lemma completion_only_with_full_value_witness :
  let rs := [mkRender 3 (Some 0%nat) "12"; mkRender 3 (Some 0%nat) "123"] in
  In "123" (completions (snd (renders mount rs)))
  /\ exists r, In r rs /\ r_value r = "123" /\ len "123" = r_maxLength r.
Proof.
  intros rs.
  assert (H : In "123" (completions (snd (renders mount rs))))
    by (cbn; now left).
  split; [exact H|].
  exact (completion_only_with_full_value mount rs "123" H).
Defined.

(** X8. The first render calls nothing, even with a value that is already full;
    and a render with the value of the render before it calls nothing
    either, whatever happened to [maxLength] and to the callback in
    between. *)
Theorem completion_needs_a_changed_value h0 rprev r :
  r_value r = r_value rprev ->
  snd (render mount r) = []
  /\ snd (render (fst (render h0 rprev)) r) = [].
Proof.
  intros E. split; [reflexivity|].
  rewrite render_hooks. unfold render. cbn [previousRef completionDeps snd].
  destruct (negb _); [|reflexivity].
  unfold completionEffect. rewrite E, String.eqb_refl. reflexivity.
Qed.

Lemma completion_needs_a_changed_value_witness :
  let rprev := mkRender 6 (Some 0%nat) "123" in
  let r := mkRender 3 (Some 1%nat) "123" in
  r_value r = r_value rprev
  /\ snd (render (fst (render mount rprev)) r) = [].
Proof.
  intros rprev r.
  assert (H : r_value r = r_value rprev) by reflexivity.
  split; [exact H|].
  exact (proj2 (completion_needs_a_changed_value mount rprev r H)).
Defined.

End CompletionMore.

(** ** The selection listener *)

Section SelectListener.

Lemma set_inputRef_same st el :
  inputRef st = Some el -> set_inputRef st el = st.
Proof. destruct st; cbn. now intros ->. Qed.

Lemma setSelectionRange_inside a b el :
  0 <= a <= b -> b <= len (Dom.value el) -> len (Dom.value el) < 2 ^ 32 ->
  Dom.setSelectionRange a b el
  = {| Dom.value := Dom.value el;
       Dom.selectionStart := Some a;
       Dom.selectionEnd := Some b |}.
Proof.
  intros Hab Hb HL. unfold Dom.setSelectionRange.
  rewrite !ToUint32_small by lia.
  repeat f_equal; lia.
Qed.

Lemma setSelectionRange_value a b el :
  Dom.value (Dom.setSelectionRange a b el) = Dom.value el.
Proof. reflexivity. Qed.

(** X9. The listener leaves the selection as it is when there is none, when the
    value is empty, when the selection is a range, and when it is a caret in
    insert mode. *)
Theorem selectListener_leaves_selection p st el :
  inputRef st = Some el ->
  Dom.selectionStart el = None \/ Dom.selectionEnd el = None
  \/ value p st = EmptyString
  \/ (exists s0 s1, selectionIs el s0 s1
                    /\ (s0 <> s1 \/ insertMode p st s0)) ->
  state (_selectListener p st) = st.
Proof.
  intros Hel H. unfold _selectListener. rewrite Hel. cbn [state].
  apply set_inputRef_same. rewrite Hel. f_equal.
  destruct H as [H|[H|[H|(s0 & s1 & [H0 H1] & H)]]].
  - now rewrite H.
  - rewrite H. now destruct (Dom.selectionStart el).
  - rewrite H. cbn. now destruct (Dom.selectionStart el), (Dom.selectionEnd el).
  - rewrite H0, H1. destruct (negb _); [|reflexivity].
    destruct H as [H|[Hc Hlt]].
    + replace (s0 =? s1) with false by (symmetry; now apply Z.eqb_neq).
      reflexivity.
    + replace (s0 =? len (value p st)) with true
        by (symmetry; now apply Z.eqb_eq).
      replace (len (value p st) <? maxLength p) with true
        by (symmetry; now apply Z.ltb_lt).
      cbn. now rewrite andb_false_r.
Qed.

Lemma selectListener_leaves_selection_witness :
  (exists s0 s1, selectionIs (Dom.mkInput "@12" (Some 2) (Some 3)) s0 s1
                 /\ (s0 <> s1 \/ insertMode props12 focused12 s0))
  /\ state (_selectListener props12 focused12) = focused12.
Proof.
  assert (H : exists s0 s1,
             selectionIs (Dom.mkInput "@12" (Some 2) (Some 3)) s0 s1
             /\ (s0 <> s1 \/ insertMode props12 focused12 s0)).
  { exists 2, 3. split; [split; reflexivity|]. left. lia. }
  split; [exact H|].
  apply (selectListener_leaves_selection props12 focused12 _ eq_refl).
  right. right. right. exact H.
Defined.

Lemma windowStart_bounds p st c :
  0 <= c -> value p st <> EmptyString ->
  0 <= windowStart p st c /\ windowStart p st c <= c <= windowStart p st c + 1.
Proof.
  intros Hc Hv. unfold windowStart.
  destruct (c =? 0) eqn:E0; [apply Z.eqb_eq in E0; lia|].
  apply Z.eqb_neq in E0. destruct (c =? len (value p st)); lia.
Qed.

(** What the listener asks [setSelectionRange] for, for a caret to widen. *)
Lemma selectListener_caret p st el c :
  inputRef st = Some el ->
  selectionIs el c c ->
  value p st <> EmptyString ->
  ~ insertMode p st c ->
  0 <= c ->
  state (_selectListener p st)
  = set_inputRef st (Dom.setSelectionRange (windowStart p st c)
                                           (windowStart p st c + 1) el).
Proof.
  intros Hel [H0 H1] Hv Hins Hc. unfold _selectListener.
  rewrite Hel, H0, H1. cbn [state]. f_equal.
  replace (len (value p st) =? 0) with false.
  2:{ symmetry. apply Z.eqb_neq. unfold len. destruct (value p st);
      [congruence | cbn; lia]. }
  cbn [negb]. rewrite Z.eqb_refl. cbn [andb].
  replace ((c =? len (value p st)) && (len (value p st) <? maxLength p))
    with false.
  2:{ symmetry. apply not_true_is_false. intros H.
      apply andb_true_iff in H as [A B]. apply Hins. split.
      - now apply Z.eqb_eq. - now apply Z.ltb_lt. }
  cbn [negb]. unfold windowStart.
  destruct (c =? 0) eqn:E0; [reflexivity|].
  apply Z.eqb_neq in E0.
  destruct (c =? len (value p st)) eqn:E1.
  - apply Z.eqb_eq in E1. rewrite <- E1.
    replace (c - 1 =? -1) with false by (symmetry; apply Z.eqb_neq; lia).
    replace (c =? -1) with false by (symmetry; apply Z.eqb_neq; lia).
    cbn. now replace (c - 1 + 1) with c by lia.
  - replace (c =? -1) with false by (symmetry; apply Z.eqb_neq; lia).
    replace (c + 1 =? -1) with false by (symmetry; apply Z.eqb_neq; lia).
    reflexivity.
Qed.

(** X10. A caret inside the text of a non-empty value, and not in insert mode, is
    widened to a window of exactly one character: [0, 1) at the start, the
    character before the caret when the caret is at [value.length], and the
    character after it otherwise.  The text of the input is not changed. *)
Theorem selectListener_widens_caret p st el c :
  inputRef st = Some el ->
  selectionIs el c c ->
  value p st <> EmptyString ->
  ~ insertMode p st c ->
  0 <= c < len (Dom.value el) ->
  len (Dom.value el) < 2 ^ 32 ->
  let a := windowStart p st c in
  let st' := state (_selectListener p st) in
  nativeSelection st' = Some (Some a, Some (a + 1))
  /\ a <= c <= a + 1
  /\ text st' = Some (Dom.value el).
Proof.
  intros Hel Hsel Hv Hins Hc HL a st'. subst st'.
  rewrite (selectListener_caret p st el c) by (auto; lia).
  destruct (windowStart_bounds p st c) as [Ha Hac]; [lia|exact Hv|].
  fold a in Ha, Hac |- *.
  assert (Hb : a + 1 <= len (Dom.value el)).
  { unfold a, windowStart in *.
    destruct (c =? 0); [lia|]. destruct (c =? len (value p st)); lia. }
  rewrite setSelectionRange_inside by lia.
  unfold nativeSelection, text. cbn. auto.
Qed.

Lemma selectListener_widens_caret_witness :
  let el := Dom.mkInput "@123" (Some 2) (Some 2) in
  let st := mkState "123" false true None None (Some el) in
  let p := mkProps None None 6 None true None false in
  (value p st <> EmptyString /\ ~ insertMode p st 2
   /\ 0 <= 2 < len (Dom.value el) /\ len (Dom.value el) < 2 ^ 32)
  /\ nativeSelection (state (_selectListener p st)) = Some (Some 2, Some 3).
Proof.
  intros el st p.
  assert (Hv : value p st <> EmptyString) by discriminate.
  assert (Hi : ~ insertMode p st 2) by (intros [H _]; discriminate).
  assert (Hc : 0 <= 2 < len (Dom.value el)) by (cbn; lia).
  assert (HL : len (Dom.value el) < 2 ^ 32) by (cbn; lia).
  split; [auto|].
  exact (proj1 (selectListener_widens_caret p st el 2 eq_refl
                  (conj eq_refl eq_refl) Hv Hi Hc HL)).
Defined.

(** X11. The listener changes nothing but the native selection, calls nothing and
    prevents nothing; it defers the mirror's update exactly when the input is
    mounted. *)
Theorem selectListener_touches_only_selection p st :
  let o := _selectListener p st in
  text (state o) = text st
  /\ mirror (state o) = mirror st
  /\ isFocused (state o) = isFocused st
  /\ internalValue (state o) = internalValue st
  /\ calls o = [] /\ defaultPrevented o = false
  /\ deferred o = match inputRef st with
                  | Some _ => [TaskSyncMirror]
                  | None => []
                  end.
Proof.
  intros o. subst o. unfold _selectListener, text.
  destruct (inputRef st) as [el|] eqn:Hel; cbn; [|rewrite Hel; tauto].
  repeat split.
  destruct (Dom.selectionStart el), (Dom.selectionEnd el); try reflexivity.
  destruct (negb _); [|reflexivity].
  destruct (_ && _); [|reflexivity].
  destruct (if z =? 0 then _ else _) as [a b].
  now destruct (_ && _).
Qed.

End SelectListener.

(** ** Running the listener again, and the deferred callbacks *)

Section Deferred.

Lemma selectListener_outcome p st el :
  inputRef st = Some el ->
  _selectListener p st
  = {| state := state (_selectListener p st);
       defaultPrevented := false;
       calls := [];
       deferred := [TaskSyncMirror] |}.
Proof. intros Hel. unfold _selectListener. now rewrite Hel. Qed.

Lemma value_set_inputRef p st el :
  value p (set_inputRef st el) = value p st.
Proof. reflexivity. Qed.

(** After the listener the selection is as it was, or is one character
    wide. *)
Lemma selectListener_result p st el s0 s1 :
  inputRef st = Some el ->
  selectionIs el s0 s1 ->
  0 <= s0 <= len (Dom.value el) ->
  len (Dom.value el) + 1 < 2 ^ 32 ->
  state (_selectListener p st) = st
  \/ exists a,
       state (_selectListener p st)
       = set_inputRef st {| Dom.value := Dom.value el;
                            Dom.selectionStart := Some a;
                            Dom.selectionEnd := Some (a + 1) |}.
Proof.
  intros Hel Hsel Hs HL.
  destruct (Z.eq_dec s0 s1) as [<-|N].
  2:{ left. apply (selectListener_leaves_selection p st el Hel).
      right. right. right. exists s0, s1. auto. }
  destruct (string_dec (value p st) EmptyString) as [Hv|Hv].
  { left. apply (selectListener_leaves_selection p st el Hel). auto. }
  destruct (Z.eq_dec s0 (len (value p st))) as [Hc|Hc].
  - destruct (Z_lt_dec (len (value p st)) (maxLength p)) as [Hm|Hm].
    { left. apply (selectListener_leaves_selection p st el Hel).
      right. right. right. exists s0, s0. split; [exact Hsel|].
      right. now split. }
    right. exists (s0 - 1).
    rewrite (selectListener_caret p st el s0) by
      (auto; try lia; intros [_ K]; lia).
    f_equal.
    assert (H0 : s0 <> 0).
    { intros ->. apply Hv. unfold len in Hc. destruct (value p st);
        [reflexivity | cbn in Hc; lia]. }
    unfold windowStart.
    replace (s0 =? 0) with false by (symmetry; now apply Z.eqb_neq).
    replace (s0 =? len (value p st)) with true
      by (symmetry; now apply Z.eqb_eq).
    apply setSelectionRange_inside; lia.
  - rewrite (selectListener_caret p st el s0) by
      (auto; try lia; intros [K _]; lia).
    unfold windowStart.
    replace (s0 =? len (value p st)) with false
      by (symmetry; now apply Z.eqb_neq).
    destruct (Z_lt_dec s0 (len (Dom.value el))) as [Hin|Hout].
    + right. exists (if s0 =? 0 then 0 else s0). f_equal.
      apply setSelectionRange_inside; destruct (s0 =? 0) eqn:E;
        try apply Z.eqb_eq in E; lia.
    + left. assert (s0 = len (Dom.value el)) by lia. subst s0.
      apply set_inputRef_same. rewrite Hel. f_equal.
      unfold Dom.setSelectionRange.
      destruct Hsel as [H0 H1]. destruct el as [v a b]. cbn in *.
      subst a b. f_equal.
      * f_equal. destruct (len v =? 0) eqn:E.
        -- apply Z.eqb_eq in E. rewrite E. reflexivity.
        -- rewrite !ToUint32_small by lia. lia.
      * f_equal. destruct (len v =? 0) eqn:E.
        -- apply Z.eqb_eq in E. rewrite E. reflexivity.
        -- rewrite !ToUint32_small by lia. lia.
Qed.

(** X12. Running the listener a second time changes nothing more: the timers of
    [syncTimeouts] may call it as often as they like. *)
Theorem selectListener_idempotent p st el s0 s1 :
  inputRef st = Some el ->
  selectionIs el s0 s1 ->
  0 <= s0 <= len (Dom.value el) ->
  len (Dom.value el) + 1 < 2 ^ 32 ->
  _selectListener p (state (_selectListener p st)) = _selectListener p st.
Proof.
  intros Hel Hsel Hs HL.
  destruct (selectListener_result p st el s0 s1 Hel Hsel Hs HL)
    as [E|[a E]].
  - now rewrite E.
  - rewrite (selectListener_outcome p st el Hel). cbn [state]. rewrite E.
    set (el' := {| Dom.value := Dom.value el;
                   Dom.selectionStart := Some a;
                   Dom.selectionEnd := Some (a + 1) |}).
    rewrite (selectListener_outcome p (set_inputRef st el') el' eq_refl).
    f_equal.
    apply (selectListener_leaves_selection p (set_inputRef st el') el'
             eq_refl).
    right. right. right. exists a, (a + 1).
    split; [split; reflexivity|]. left. lia.
Qed.

Lemma selectListener_idempotent_witness :
  let el := Dom.mkInput "@123" (Some 2) (Some 2) in
  let st := mkState "123" false true None None (Some el) in
  let p := mkProps None None 6 None true None false in
  (0 <= 2 <= len (Dom.value el) /\ len (Dom.value el) + 1 < 2 ^ 32)
  /\ nativeSelection (state (_selectListener p (state (_selectListener p st))))
     = Some (Some 2, Some 3).
Proof.
  intros el st p.
  assert (Hs : 0 <= 2 <= len (Dom.value el)) by (cbn; lia).
  assert (HL : len (Dom.value el) + 1 < 2 ^ 32) by (cbn; lia).
  split; [auto|].
  rewrite (selectListener_idempotent p st el 2 2 eq_refl
             (conj eq_refl eq_refl) Hs HL).
  reflexivity.
Defined.

Lemma syncMirror_mounted st el :
  inputRef st = Some el ->
  syncMirror st
  = Ok (set_mirror st (shiftLeft (Dom.selectionStart el))
                      (shiftLeft (Dom.selectionEnd el))).
Proof.
  intros H. unfold syncMirror. rewrite H. now rewrite !fixSelection_shift.
Qed.

(** The callbacks a listener leaves behind run to their end, and then the
    mirror is the native selection shifted by one. *)
Lemma settle_select_listener p st :
  exists st',
    settle 2 p [TaskSelectListener] st = Ok st'
    /\ inputRef st' = inputRef (state (_selectListener p st))
    /\ forall el', inputRef st' = Some el' ->
         mirror st' = (shiftLeft (Dom.selectionStart el'),
                       shiftLeft (Dom.selectionEnd el')).
Proof.
  cbn [settle runTask bind app fst snd].
  destruct (inputRef st) as [el|] eqn:Hel.
  - rewrite (selectListener_outcome p st el Hel). cbn [state deferred].
    assert (Hm : exists el', inputRef (state (_selectListener p st)) = Some el').
    { unfold _selectListener. rewrite Hel. cbn. eauto. }
    destruct Hm as [el' Hel'].
    cbn [settle runTask bind app fst snd].
    rewrite (syncMirror_mounted _ el' Hel'). cbn [bind settle fst snd app].
    eexists. split; [reflexivity|]. split; [reflexivity|].
    cbn [inputRef set_mirror]. rewrite Hel'. intros ? E. inversion E; subst.
    reflexivity.
  - unfold _selectListener. rewrite Hel. cbn.
    eexists. split; [reflexivity|]. split; [reflexivity|].
    rewrite Hel. discriminate.
Qed.

(** X13. After a key press that does not throw, and once the callbacks it
    deferred have run, the mirror is the native selection of the input, each
    end shifted left by one. *)
Theorem keyDown_then_mirror_follows_native p st e o :
  onKeyDown p st e = Ok o ->
  exists st',
    settle 2 p (deferred o) (state o) = Ok st'
    /\ forall el', inputRef st' = Some el' ->
         mirror st' = (shiftLeft (Dom.selectionStart el'),
                       shiftLeft (Dom.selectionEnd el')).
Proof.
  unfold onKeyDown. intros H.
  destruct (_keyDownListener p st e) as [o1|m] eqn:K; [|discriminate].
  cbn [bind] in H. inversion H; subst o; clear H. cbn [deferred state].
  assert (D : deferred o1 = []).
  { unfold _keyDownListener in K.
    destruct (inputRef st) as [el|]; [|now inversion K].
    destruct (Dom.selectionStart el) as [s0|]; [|now inversion K].
    destruct (Dom.selectionEnd el) as [s1|]; [|now inversion K].
    destruct (classify s0 s1); [|discriminate]. cbn [bind] in K.
    destruct (isNavigationKey _); [|now inversion K].
    destruct (negb _); now inversion K. }
  rewrite D. cbn [app].
  destruct (settle_select_listener p (state o1)) as (st' & Hs & _ & Hm).
  eauto.
Qed.

Lemma keyDown_then_mirror_follows_native_witness :
  let e := Dom.mkKey "ArrowLeft" false false false false in
  exists o st',
    onKeyDown props12 focused12 e = Ok o
    /\ settle 2 props12 (deferred o) (state o) = Ok st'
    /\ nativeSelection st' = Some (Some 1, Some 2)
    /\ mirror st' = (Some 0, Some 1).
Proof.
  intros e.
  destruct (onKeyDown props12 focused12 e) as [o|m] eqn:K;
    [|discriminate K].
  destruct (keyDown_then_mirror_follows_native props12 focused12 e o K)
    as (st' & Hs & Hm).
  exists o, st'. split; [reflexivity|]. split; [exact Hs|].
  cbv in K. inversion K; subst o; clear K.
  cbv in Hs. inversion Hs; subst st'. split; reflexivity.
Defined.

End Deferred.

(** ** More on key handling *)

Section KeysMore.

Lemma classify_inverted s0 s1 :
  s1 < s0 ->
  classify s0 s1 = Throw "Could not determine OTPInput selection type".
Proof.
  intros H. unfold classify.
  replace (s0 =? s1) with false by (symmetry; apply Z.eqb_neq; lia).
  replace (s1 - s0 =? 1) with false by (symmetry; apply Z.eqb_neq; lia).
  replace (s1 - s0 >? 1) with false; [reflexivity|].
  symmetry. rewrite Z.gtb_ltb. apply Z.ltb_ge. lia.
Qed.

(** X14. The key handler throws exactly when the input is mounted and its native
    selection ends before it starts, whatever the key and the props. *)
Theorem keyDown_throws_iff p st e :
  (exists m, _keyDownListener p st e = Throw m)
  <-> exists el s0 s1,
        inputRef st = Some el /\ selectionIs el s0 s1 /\ s1 < s0.
Proof.
  split.
  - intros [m H]. unfold _keyDownListener in H.
    destruct (inputRef st) as [el|] eqn:Hel; [|discriminate].
    destruct (Dom.selectionStart el) as [s0|] eqn:H0; [|discriminate].
    destruct (Dom.selectionEnd el) as [s1|] eqn:H1; [|discriminate].
    exists el, s0, s1. split; [reflexivity|]. split; [now split|].
    destruct (keyDown_after_classify p st e el s0 s1 Hel H0 H1) as [_ K].
    apply (classify_throws s0 s1 m), K.
    unfold _keyDownListener. now rewrite Hel, H0, H1.
  - intros (el & s0 & s1 & Hel & [H0 H1] & Hlt).
    eexists. unfold _keyDownListener.
    rewrite Hel, H0, H1, (classify_inverted s0 s1 Hlt). reflexivity.
Qed.

Lemma classify_shape s0 s1 t :
  classify s0 s1 = Ok t -> shape s0 s1 t.
Proof.
  unfold classify.
  destruct (s0 =? s1) eqn:E0.
  { intros H. inversion H. now apply Z.eqb_eq. }
  destruct (s1 - s0 =? 1) eqn:E1.
  { intros H. inversion H. now apply Z.eqb_eq. }
  destruct (s1 - s0 >? 1) eqn:E2; [|discriminate].
  intros H. inversion H. cbn. lia.
Qed.



Lemma eqb_CHAR t : SelectionType_eqb t CHAR = true <-> t = CHAR.
Proof. destruct t; cbn; split; congruence. Qed.

Lemma isNavigationKey_arrows k :
  k = "ArrowLeft" \/ k = "ArrowRight" -> isNavigationKey k = true.
Proof. intros [->| ->]; reflexivity. Qed.

(** X16. With navigation enabled the handler steps in (and prevents the default)
    exactly for a plain ArrowLeft on a selection of one character and for
    Alt+ArrowLeft/ArrowRight without Shift.  Every other key, among them
    ArrowUp, ArrowDown, Home and End, leaves the state as it is; and no key
    changes the text of the input or the mirror. *)
Theorem keyDown_steps_in_iff p st e el s0 s1 :
  inputRef st = Some el ->
  selectionIs el s0 s1 ->
  s0 <= s1 ->
  allowNavigation p = true ->
  exists o,
    _keyDownListener p st e = Ok o
    /\ (defaultPrevented o = true
        <-> (plainArrowLeft e /\ s1 - s0 = 1) \/ altArrow e)
    /\ (defaultPrevented o = false -> state o = st)
    /\ text (state o) = text st
    /\ mirror (state o) = mirror st
    /\ calls o = [] /\ deferred o = [].
Proof.
  intros Hel [H0 H1] Hle Hnav.
  destruct (classify_ordered s0 s1 Hle) as [t [Hc Hsh]].
  unfold _keyDownListener. rewrite Hel, H0, H1, Hc, Hnav. cbn [bind negb].
  assert (Hchar : SelectionType_eqb t CHAR = true <-> s1 - s0 = 1).
  { rewrite eqb_CHAR. split; [intros ->; exact Hsh|].
    intros Hd. destruct t; cbn in Hsh; try reflexivity; lia. }
  set (pl := String.eqb (Dom.key e) "ArrowLeft" && SelectionType_eqb t CHAR
             && negb (Dom.shiftKey e) && negb (Dom.metaKey e)
             && negb (Dom.ctrlKey e) && negb (Dom.altKey e)).
  set (aj := Dom.altKey e && negb (Dom.shiftKey e)
             && (String.eqb (Dom.key e) "ArrowLeft"
                 || String.eqb (Dom.key e) "ArrowRight")).
  assert (Hpl : pl = true <-> plainArrowLeft e /\ s1 - s0 = 1).
  { unfold pl, plainArrowLeft.
    rewrite !andb_true_iff, !negb_true_iff, String.eqb_eq, Hchar. tauto. }
  assert (Haj : aj = true <-> altArrow e).
  { unfold aj, altArrow.
    rewrite !andb_true_iff, orb_true_iff, negb_true_iff, !String.eqb_eq.
    tauto. }
  assert (Hkey : pl || aj = true -> isNavigationKey (Dom.key e) = true).
  { intros H. apply isNavigationKey_arrows. apply orb_true_iff in H as [H|H].
    - left. now apply Hpl in H as [[K _] _].
    - now apply Haj in H as (_ & _ & K). }
  destruct (isNavigationKey (Dom.key e)) eqn:Nav.
  - eexists. split; [reflexivity|]. cbn [defaultPrevented state calls deferred].
    split; [rewrite orb_true_iff, Hpl, Haj; tauto|].
    split.
    + intros H. apply orb_false_iff in H as [P A]. rewrite P, A.
      now apply set_inputRef_same.
    + unfold text, mirror. cbn. rewrite Hel. cbn.
      repeat split.
      destruct pl, aj; cbn; try reflexivity;
        repeat match goal with
               | |- context [if ?b then _ else _] => destruct b
               end; reflexivity.
  - exists (unchanged st). split; [reflexivity|]. cbn.
    split; [|tauto]. split; [discriminate|].
    intros H. rewrite <- Hpl, <- Haj, <- orb_true_iff in H.
    apply Hkey in H. discriminate.
Qed.

Lemma keyDown_steps_in_iff_witness :
  let e := Dom.mkKey "End" false false false false in
  2 <= 3
  /\ exists o, _keyDownListener props12 focused12 e = Ok o
               /\ state o = focused12.
Proof.
  intros e.
  assert (H : 2 <= 3) by lia.
  split; [exact H|].
  destruct (keyDown_steps_in_iff props12 focused12 e
              (Dom.mkInput "@12" (Some 2) (Some 3)) 2 3
              eq_refl (conj eq_refl eq_refl) H eq_refl)
    as (o & Ho & Hp & Hs & _).
  exists o. split; [exact Ho|]. apply Hs.
  cbv in Ho. inversion Ho. reflexivity.
Defined.

(** X17. A plain ArrowLeft on the one-character window [s0, s0 + 1) moves the
    window one position to the left and stops at [0, 1): the new window is
    [a, a + 1) with [a = max (s0 - 1) 0]. *)
Theorem keyDown_plain_left_moves_window p st e el s0 :
  inputRef st = Some el ->
  selectionIs el s0 (s0 + 1) ->
  0 <= s0 ->
  s0 + 1 <= len (Dom.value el) ->
  len (Dom.value el) < 2 ^ 32 ->
  allowNavigation p = true ->
  plainArrowLeft e ->
  let a := Z.max (s0 - 1) 0 in
  _keyDownListener p st e
  = Ok {| state := set_inputRef st {| Dom.value := Dom.value el;
                                      Dom.selectionStart := Some a;
                                      Dom.selectionEnd := Some (a + 1) |};
          defaultPrevented := true;
          calls := [];
          deferred := [] |}.
Proof.
  intros Hel [H0 H1] Hs Hb HL Hnav (Hk & Hsh & Hme & Hct & Hal) a.
  unfold _keyDownListener. rewrite Hel, H0, H1, Hnav, Hk, Hsh, Hme, Hct, Hal.
  unfold classify.
  replace (s0 =? s0 + 1) with false by (symmetry; apply Z.eqb_neq; lia).
  replace (s0 + 1 - s0 =? 1) with true by (symmetry; apply Z.eqb_eq; lia).
  cbn. do 2 f_equal.
  replace (Z.max (s0 + 1 - 1) 1) with (a + 1) by (unfold a; lia).
  fold a. rewrite setSelectionRange_inside by (unfold a; lia).
  reflexivity.
Qed.

Lemma keyDown_plain_left_moves_window_witness :
  let e := Dom.mkKey "ArrowLeft" false false false false in
  (0 <= 2 /\ 2 + 1 <= len "@12" /\ len "@12" < 2 ^ 32)
  /\ (o <- _keyDownListener props12 focused12 e ;;
      Ok (nativeSelection (state o)))
     = Ok (Some (Some 1, Some 2)).
Proof.
  intros e.
  assert (Hs : 0 <= 2) by lia.
  assert (Hb : 2 + 1 <= len "@12") by (cbn; lia).
  assert (HL : len "@12" < 2 ^ 32) by (cbn; lia).
  split; [auto|].
  rewrite (keyDown_plain_left_moves_window props12 focused12 e
             (Dom.mkInput "@12" (Some 2) (Some 3)) 2
             eq_refl (conj eq_refl eq_refl) Hs Hb HL eq_refl
             (conj eq_refl (conj eq_refl (conj eq_refl
                (conj eq_refl eq_refl))))).
  reflexivity.
Defined.

End KeysMore.

(** ** More on slots, focus and blur *)

Section SlotsMore.

Lemma filter_range lo hi : forall n s,
  filter (fun i => Nat.leb lo i && Nat.ltb i hi) (seq s n)
  = seq (Nat.max lo s) (Nat.min hi (s + n) - Nat.max lo s).
Proof.
  induction n as [|n IH]; intros s.
  - cbn [seq filter]. replace (Nat.min hi (s + 0) - Nat.max lo s)%nat
      with 0%nat by lia. reflexivity.
  - cbn [seq filter]. rewrite IH.
    destruct (Nat.leb lo s) eqn:L; destruct (Nat.ltb s hi) eqn:H; cbn [andb].
    + apply Nat.leb_le in L. apply Nat.ltb_lt in H.
      replace (Nat.max lo s) with s by lia.
      replace (Nat.min hi (s + S n) - s)%nat
        with (S (Nat.min hi (S s + n) - Nat.max lo (S s)))%nat by lia.
      cbn [seq]. f_equal. f_equal. lia.
    + apply Nat.leb_le in L. apply Nat.ltb_ge in H.
      replace (Nat.min hi (S s + n) - Nat.max lo (S s))%nat with 0%nat by lia.
      replace (Nat.min hi (s + S n) - Nat.max lo s)%nat with 0%nat by lia.
      reflexivity.
    + apply Nat.leb_gt in L.
      replace (Nat.max lo (S s)) with (Nat.max lo s) by lia.
      f_equal. lia.
    + apply Nat.leb_gt in L.
      replace (Nat.max lo (S s)) with (Nat.max lo s) by lia.
      f_equal. lia.
Qed.

Lemma filter_none {A} (f : A -> bool) l :
  (forall x, In x l -> f x = false) -> filter f l = [].
Proof.
  induction l as [|a l IH]; intros H; [reflexivity|].
  cbn. rewrite (H a) by now left. apply IH. intros x Hx. apply H. now right.
Qed.

(** X19. The active slots of a focused input whose mirror is the range from [ms]
    to [me], [ms < me]: the slots from [ms] up to, and without, [me], as far
    as there are slots. *)
Theorem activeSlots_of_range p st ms me :
  isFocused st = true ->
  mirror st = (Some ms, Some me) ->
  ms < me ->
  activeSlots p st
  = seq (Z.to_nat ms)
        (Nat.min (Z.to_nat me) (Z.to_nat (maxLength p)) - Z.to_nat ms).
Proof.
  intros Hf Hm Hlt. unfold mirror in Hm. inversion Hm as [[Hs He]].
  unfold activeSlots.
  rewrite (filter_ext _ (fun i => Nat.leb (Z.to_nat ms) i
                                  && Nat.ltb i (Z.to_nat me))).
  - rewrite filter_range. f_equal; lia.
  - intros i. unfold slot. cbn [isActive]. rewrite Hf, Hs, He. cbn [andb].
    replace (ms =? me) with false by (symmetry; apply Z.eqb_neq; lia).
    cbn [andb orb]. f_equal.
    + rewrite Z.geb_leb. destruct (Nat.leb (Z.to_nat ms) i) eqn:E.
      * apply Nat.leb_le in E. apply Z.leb_le. lia.
      * apply Nat.leb_gt in E. apply Z.leb_gt. lia.
    + destruct (Nat.ltb i (Z.to_nat me)) eqn:E.
      * apply Nat.ltb_lt in E. apply Z.ltb_lt. lia.
      * apply Nat.ltb_ge in E. apply Z.ltb_ge. lia.
Qed.

Lemma activeSlots_of_range_witness :
  let st := mkState "" false true (Some (-1)) (Some 9) None in
  -1 < 9 /\ activeSlots props12 st = [0; 1; 2; 3; 4; 5]%nat.
Proof.
  intros st.
  assert (H : -1 < 9) by lia.
  split; [exact H|].
  rewrite (activeSlots_of_range props12 st (-1) 9 eq_refl eq_refl H).
  reflexivity.
Defined.

(** X20. No slot is active while the input is not focused, or while an end of
    the mirror is null. *)
Theorem activeSlots_need_focus_and_mirror p st :
  isFocused st = false
  \/ mirrorSelectionStart st = None \/ mirrorSelectionEnd st = None ->
  activeSlots p st = []
  /\ forall sl, In sl (slots p st) ->
                isActive sl = false /\ hasFakeCaret sl = false.
Proof.
  intros H.
  assert (A : forall i, isActive (slot p st i) = false).
  { intros i. unfold slot. cbn [isActive].
    destruct H as [->|[->| ->]]; [reflexivity | apply andb_false_r |].
    destruct (mirrorSelectionStart st); apply andb_false_r. }
  split.
  - apply filter_none. intros i _. apply A.
  - intros sl Hin. unfold slots in Hin. apply in_map_iff in Hin as (i & <- & _).
    split; [apply A|].
    pose proof (A (Z.of_nat i)) as Ai. unfold slot in *.
    cbn [isActive hasFakeCaret] in *. now rewrite Ai.
Qed.

Lemma activeSlots_need_focus_and_mirror_witness :
  isFocused blurred12 = false /\ activeSlots props12 blurred12 = [].
Proof.
  assert (H : isFocused blurred12 = false) by reflexivity.
  split; [exact H|].
  exact (proj1 (activeSlots_need_focus_and_mirror props12 blurred12
                  (or_introl H))).
Defined.



(** X22. A blur leaves no slot active and no fake caret, and keeps the slots'
    characters, the mirror and the input as they were. *)
Theorem blur_deactivates_slots p st :
  let st' := state (onBlur st) in
  activeSlots p st' = []
  /\ (forall sl, In sl (slots p st') ->
                 isActive sl = false /\ hasFakeCaret sl = false)
  /\ chars (slots p st') = chars (slots p st)
  /\ mirror st' = mirror st
  /\ inputRef st' = inputRef st.
Proof.
  intros st'. subst st'.
  destruct (activeSlots_need_focus_and_mirror p (state (onBlur st)))
    as [A B]; [now left|].
  split; [exact A|]. split; [exact B|].
  split; [|split; reflexivity].
  unfold chars, slots. rewrite !map_map. reflexivity.
Qed.

Lemma chars_from : forall k v m,
  (k <= m)%nat ->
  map (fun i => String.get i v) (seq 0 k)
  = firstn k (map Some (list_ascii_of_string v) ++ repeat None m).
Proof.
  induction k as [|k IH]; intros v m Hm; [reflexivity|].
  cbn [seq map]. rewrite <- seq_shift, map_map.
  destruct v as [|c v].
  - destruct m as [|m]; [lia|].
    cbn [String.get list_ascii_of_string map app repeat firstn]. f_equal.
    transitivity (map (fun i => String.get i EmptyString) (seq 0 k)).
    + now apply map_ext.
    + now rewrite (IH EmptyString m) by lia.
  - cbn [String.get list_ascii_of_string map app firstn]. f_equal.
    apply IH. lia.
Qed.

(** X23. In order, the characters of the slots spell the value, cut at
    [maxLength] characters when it is longer and filled up with nulls when
    it is shorter. *)
Theorem slots_spell_value p st :
  let k := Z.to_nat (maxLength p) in
  chars (slots p st)
  = firstn k (map Some (list_ascii_of_string (value p st))
              ++ repeat None k).
Proof.
  intros k. unfold chars, slots. rewrite map_map. fold k.
  rewrite <- (chars_from k (value p st) k) by lia.
  apply map_ext. intros i. unfold slot. cbn [char]. unfold at_.
  replace (Z.of_nat i <? 0) with false by (symmetry; apply Z.ltb_ge; lia).
  now rewrite Nat2Z.id.
Qed.

End SlotsMore.

(** ** Sanitizing, selecting, focusing and jumping, in general *)

Section General.

(** X4. Sanitizing removes one space and one sentinel character, when the text
    has one, and nothing else: the numbers of both go down by one, the
    number of every other character stays, and the length goes down
    accordingly. *)
Theorem sanitize_removes_one_of_each t d :
  d <> space -> d <> ghost ->
  count space (sanitize t) = Nat.pred (count space t)
  /\ count ghost (sanitize t) = Nat.pred (count ghost t)
  /\ count d (sanitize t) = count d t
  /\ len (sanitize t)
     = len t - (if includes t " " then 1 else 0)
             - (if includes t GHOST_CHARACTER then 1 else 0).
Proof.
  intros Hs Hg. destruct (sanitize_counts t) as [A B].
  split; [exact A|]. split; [exact B|]. split; [|apply len_sanitize].
  unfold sanitize, removeGhostCharacter, GHOST_CHARACTER.
  rewrite (count_replace_other ghost d) by exact Hg.
  now apply (count_replace_other space d).
Qed.

Lemma sanitize_removes_one_of_each_witness :
  ("1"%char <> space /\ "1"%char <> ghost)
  /\ count "1"%char (sanitize "@1 1 1") = 3%nat
  /\ count space (sanitize "@1 1 1") = 1%nat.
Proof.
  assert (Hs : "1"%char <> space) by discriminate.
  assert (Hg : "1"%char <> ghost) by discriminate.
  split; [auto|].
  destruct (sanitize_removes_one_of_each "@1 1 1" "1"%char Hs Hg)
    as (A & _ & C & _).
  split; [exact C | exact A].
Defined.





(** Without a mounted input a focus only sets the focus flag. *)
Lemma focus_unmounted p st :
  inputRef st = None -> state (onFocus p st) = set_isFocused st true.
Proof. intros H. unfold onFocus. now rewrite H. Qed.

(** X18. Alt+ArrowLeft and Alt+ArrowRight without Shift, with navigation enabled
    and [n] the length of the value: the first selects the range from 0 to
    [min 1 n] of the input's text, the second the range from
    [max 0 (n - 1)] to [n]; both prevent the default. *)
Theorem keyDown_alt_arrows p st e el s0 s1 :
  inputRef st = Some el ->
  selectionIs el s0 s1 ->
  s0 <= s1 ->
  allowNavigation p = true ->
  Dom.altKey e = true ->
  Dom.shiftKey e = false ->
  len (value p st) <= len (Dom.value el) < 2 ^ 32 ->
  let n := len (value p st) in
  (Dom.key e = "ArrowLeft" ->
   exists o, _keyDownListener p st e = Ok o
             /\ defaultPrevented o = true
             /\ nativeSelection (state o) = Some (Some 0, Some (Z.min 1 n)))
  /\ (Dom.key e = "ArrowRight" ->
      exists o, _keyDownListener p st e = Ok o
                /\ defaultPrevented o = true
                /\ nativeSelection (state o)
                   = Some (Some (Z.max 0 (n - 1)), Some n)).
Proof.
  intros Hel [H0 H1] Hle Hnav Halt Hshift HL n.
  destruct (classify_ordered s0 s1 Hle) as [t [Hc _]].
  assert (Hn : 0 <= n) by (unfold n, len; lia).
  split; intros Hk; unfold _keyDownListener;
    rewrite Hel, H0, H1, Hc, Hnav, Halt, Hshift, Hk; cbn [bind negb];
    cbn; rewrite ?andb_false_r; cbn [orb];
    eexists; (split; [reflexivity|]); cbn [defaultPrevented state];
    (split; [reflexivity|]);
    rewrite setSelectionRange_inside by (fold n; lia); reflexivity.
Qed.

Lemma keyDown_alt_arrows_witness :
  let e := Dom.mkKey "ArrowLeft" false false false true in
  (2 <= 3 /\ len (value props12 focused12) <= len "@12" < 2 ^ 32)
  /\ exists o, _keyDownListener props12 focused12 e = Ok o
               /\ nativeSelection (state o) = Some (Some 0, Some 1).
Proof.
  intros e.
  assert (Hle : 2 <= 3) by lia.
  assert (HL : len (value props12 focused12) <= len "@12" < 2 ^ 32)
    by (cbn; lia).
  split; [auto|].
  destruct (proj1 (keyDown_alt_arrows props12 focused12 e
                     (Dom.mkInput "@12" (Some 2) (Some 3)) 2 3
                     eq_refl (conj eq_refl eq_refl) Hle eq_refl eq_refl
                     eq_refl HL) eq_refl)
    as (o & Ho & _ & Hn).
  exists o. split; [exact Ho | exact Hn].
Defined.

End General.
